(** * Shallow embedding of the ibis pandas execution core

    The development follows [ibis/pandas/core.py] (time-context algebra,
    scope lookup, the recursive evaluator and its entry points),
    [ibis/pyspark/timecontext.py] (the PySpark default for
    [compute_time_context]) and [ibis/file/csv.py] (column pruning in the
    CSV client's [pre_execute] rule).

    Timestamps are integers (nanoseconds since the epoch, the value a
    [pd.Timestamp] carries); operations are identified by a hashable key;
    a scope is a finite map from keys to entries, as the Python [dict] is. *)

From stdpp Require Import gmap strings list fin_maps pretty.
From Stdlib Require Import ZArith Lia.

#[local] Open Scope Z_scope.

(** ** Python objects that are not expressions

    What an operation's input can be besides a sub-expression, and what a
    scope key or a scalar result can be.  Tuples, lists, windows, data
    types and clients are opaque to the evaluator and carry a token. *)

Inductive raw : Type :=
  | RNone
  | RInt (z : Z)
  | RTimestamp (t : Z)
  | RStr (s : string)
  | RClient (c : nat)
  | RDataType (d : nat)
  | RWindow (w : nat)
  | RTuple (t : nat)
  | RList (l : nat).

#[global] Instance raw_eq_dec : EqDecision raw.
Proof. solve_decision. Defined.

#[global] Instance raw_countable : Countable raw.
Proof.
  refine (inj_countable'
    (λ r, match r with
          | RNone => inl (inl 0%nat)
          | RInt z => inl (inr (inl z))
          | RTimestamp t => inl (inr (inr t))
          | RStr s => inr (inl s)
          | RClient c => inr (inr (1%nat, c))
          | RDataType d => inr (inr (2%nat, d))
          | RWindow w => inr (inr (3%nat, w))
          | RTuple t => inr (inr (4%nat, t))
          | RList l => inl (inl (S l))
          end)
    (λ x, match x with
          | inl (inl O) => RNone
          | inl (inl (S l)) => RList l
          | inl (inr (inl z)) => RInt z
          | inl (inr (inr t)) => RTimestamp t
          | inr (inl s) => RStr s
          | inr (inr (1%nat, c)) => RClient c
          | inr (inr (2%nat, d)) => RDataType d
          | inr (inr (3%nat, w)) => RWindow w
          | inr (inr (_, t)) => RTuple t
          end) _).
  by intros [].
Defined.

(** ** Errors *)

Inductive error : Type :=
  | IbisError_should_specify_begin_end
  | IbisError_begin_not_Timestamp
  | IbisError_end_not_Timestamp
  | IbisError_begin_after_end
  | IbisError_arg_timecontexts_differ
  | UnboundExpressionError
  | TypeError
  | KeyError
  | ValueError
  | AssertionError
  | AttributeError
  | OperationNotDefinedError
  | ExpressionError
  | FileNotFoundError
  | HookError (code : nat)
  | RecursionDepthExceeded.

#[global] Instance error_eq_dec : EqDecision error.
Proof. solve_decision. Defined.

Inductive result (A : Type) : Type :=
  | Ok (a : A)
  | Err (e : error).
Arguments Ok {A} a.
Arguments Err {A} e.

Definition is_Ok {A} (r : result A) : bool :=
  match r with Ok _ => true | Err _ => false end.

Definition rbind {A B} (r : result A) (f : A → result B) : result B :=
  match r with Ok a => f a | Err e => Err e end.

Notation "'let?' x ':=' r 'in' k" := (rbind r (λ x, k))
  (at level 10, x name, r at level 100, k at level 200,
   format "'[v' 'let?'  x  :=  r  'in'  '/' k ']'").

Fixpoint rmap {A B} (f : A → result B) (l : list A) : result (list B) :=
  match l with
  | [] => Ok []
  | a :: l' => let? b := f a in let? bs := rmap f l' in Ok (b :: bs)
  end.

(** ** Time contexts ([core.py], lines 584-657) *)

Definition TimeContext : Type := Z * Z.

Module TimeContextRelation.
Inductive t : Type := SUBSET | SUPERSET | OVERLAP | NONOVERLAP.

#[global] Instance eq_dec : EqDecision t.
Proof. solve_decision. Defined.
End TimeContextRelation.
Import TimeContextRelation.

(** What [execute] may be handed as a time context: a tuple or list,
    given by its items, or any other object (the tokens [RTuple] and
    [RList] stand for inputs of operations and do not occur here). *)
Inductive pyobj : Type :=
  | PySeq (items : list raw)
  | PyAtom (r : raw).

(** [begin, end = timecontext]: a sequence of exactly two items unpacks; a
    string is iterable too and unpacks into its characters; any other
    length is a [ValueError] and a non-iterable a [TypeError]. *)
Definition unpack2 (o : pyobj) : option (raw * raw) :=
  match o with
  | PySeq [b; e] => Some (b, e)
  | PyAtom (RStr (String c1 (String c2 EmptyString))) =>
      Some (RStr (String c1 EmptyString), RStr (String c2 EmptyString))
  | _ => None
  end.

(** [isinstance(x, pd.Timestamp)] *)
Definition as_Timestamp (r : raw) : option Z :=
  match r with RTimestamp t => Some t | _ => None end.

Definition canonicalize_context (timecontext : pyobj) : result TimeContext :=
  match unpack2 timecontext with
  | None => Err IbisError_should_specify_begin_end
  | Some (b, e) =>
      match as_Timestamp b with
      | None => Err IbisError_begin_not_Timestamp
      | Some begin =>
          match as_Timestamp e with
          | None => Err IbisError_end_not_Timestamp
          | Some end_ =>
              if begin >? end_ then Err IbisError_begin_after_end
              else Ok (begin, end_)
          end
      end
  end.

Definition compare_timecontext (cur_context old_context : TimeContext)
  : TimeContextRelation.t :=
  let '(begin, end_) := cur_context in
  let '(old_begin, old_end) := old_context in
  if (old_begin <=? begin) && (old_end >=? end_) then SUBSET
  else if (old_begin >=? begin) && (old_end <=? end_) then SUPERSET
  else if (old_end <? begin) || (end_ <? old_begin) then NONOVERLAP
  else OVERLAP.

(** A canonical range is one [canonicalize_context] can return. *)
Definition canonical (c : TimeContext) : Prop := c.1 <= c.2.

(** ** Values: what pandas hands back

    A cell is an integer; an index is a plain index with an optional name
    or a multi-level one; a data frame is an ordered list of labelled
    columns over an index; a series is one column over an index. *)

Definition cell : Type := Z.

Inductive Index : Type :=
  | SingleIndex (name : option string) (labels : list cell)
  | MultiIndex (levels : list (option string * list cell)).

Record DataFrame : Type := mkDataFrame {
  df_index : Index;
  df_columns : list (string * list cell)
}.

Record Series : Type := mkSeries {
  s_name : option string;
  s_index : Index;
  s_values : list cell
}.

Inductive value : Type :=
  | VRaw (r : raw)
  | VSeries (s : Series)
  | VFrame (df : DataFrame).

Definition is_None (v : value) : bool :=
  match v with VRaw RNone => true | _ => false end.

Definition index_len (i : Index) : nat :=
  match i with
  | SingleIndex _ labels => length labels
  | MultiIndex [] => 0
  | MultiIndex ((_, labels) :: _) => length labels
  end.

(** [RangeIndex(0, n)] *)
Definition default_index (n : nat) : Index :=
  SingleIndex None (map Z.of_nat (seq 0 n)).

Definition column_names (cols : list (string * list cell)) : list string :=
  map fst cols.

(** [DataFrame.insert(0, name, values)] refuses a label that is there. *)
Fixpoint insert_front (to_insert cols : list (string * list cell))
  : result (list (string * list cell)) :=
  match to_insert with
  | [] => Ok cols
  | (name, vals) :: rest =>
      match insert_front rest cols with
      | Err e => Err e
      | Ok cols' =>
          if bool_decide (name ∈ column_names cols') then Err ValueError
          else Ok ((name, vals) :: cols')
      end
  end.

(** The columns [reset_index()] makes of the index: the index's name, or
    ["index"] (["level_0"] when ["index"] is a column already); the level
    names, or ["level_i"]. *)
Definition index_columns (df : DataFrame) : list (string * list cell) :=
  match df_index df with
  | SingleIndex name labels =>
      let default_name :=
        if bool_decide ("index" ∈ column_names (df_columns df))
        then "level_0" else "index" in
      [(default default_name name, labels)]
  | MultiIndex levels =>
      imap (λ i lv, (default ("level_" +:+ pretty i) lv.1, lv.2)) levels
  end.

(** [df.reset_index()] *)
Definition reset_index (df : DataFrame) : result DataFrame :=
  match insert_front (index_columns df) (df_columns df) with
  | Err e => Err e
  | Ok cols => Ok (mkDataFrame (default_index (index_len (df_index df))) cols)
  end.

(** [df.loc[:, names]]: every label must be there; a label selects every
    column that carries it. *)
Fixpoint select_columns (cols : list (string * list cell)) (names : list string)
  : result (list (string * list cell)) :=
  match names with
  | [] => Ok []
  | n :: rest =>
      match filter (λ c, c.1 = n) cols with
      | [] => Err KeyError
      | found =>
          match select_columns cols rest with
          | Err e => Err e
          | Ok more => Ok (found ++ more)
          end
      end
  end.

Definition loc_columns (df : DataFrame) (names : list string) : result DataFrame :=
  match select_columns (df_columns df) names with
  | Err e => Err e
  | Ok cols => Ok (mkDataFrame (df_index df) cols)
  end.

(** [series.reset_index(drop=True)] *)
Definition reset_index_drop (s : Series) : Series :=
  mkSeries (s_name s) (default_index (index_len (s_index s))) (s_values s).

(** ** Expressions and operations

    An operation has a hashable identity, a class the evaluator tests with
    [isinstance], and ordered inputs.  A literal carries its value; an
    expression knows its type and, for a table, its schema's names. *)

Inductive OpClass : Type := Literal | TableColumn | TableNode | ValueOp.

#[global] Instance OpClass_eq_dec : EqDecision OpClass.
Proof. solve_decision. Defined.

Record OpInfo : Type := mkOpInfo {
  op_key : positive;
  op_class : OpClass;
  op_value : raw;
  expr_type : nat;
  schema_names : list string
}.

Inductive Expr : Type :=
  | mkExpr (info : OpInfo) (inputs : list Input)
with Input : Type :=
  | InExpr (e : Expr)
  | InRaw (r : raw).

Definition op (e : Expr) : OpInfo := match e with mkExpr i _ => i end.
Definition inputs (e : Expr) : list Input := match e with mkExpr _ l => l end.

(** [is_computable_input]: registered for clients, expressions, data
    types, [None], windows, tuples and the scalar types; [False] for every
    other object (strings and lists among them). *)
Definition is_computable_input (arg : Input) : bool :=
  match arg with
  | InExpr _ => true
  | InRaw (RStr _) | InRaw (RList _) => false
  | InRaw _ => true
  end.

(** ** Scope ([core.py], lines 660-722) *)

Inductive key : Type :=
  | KOp (k : positive)
  | KRaw (r : raw).

#[global] Instance key_eq_dec : EqDecision key.
Proof. solve_decision. Defined.

#[global] Instance key_countable : Countable key.
Proof.
  refine (inj_countable'
    (λ k, match k with KOp p => inl p | KRaw r => inr r end)
    (λ x, match x with inl p => KOp p | inr r => KRaw r end) _).
  by intros [].
Defined.

Record scope_entry : Type := mkEntry {
  entry_value : value;
  entry_timecontext : option TimeContext
}.

Abbreviation Scope := (gmap key scope_entry).

Definition scope_item (k : key) (result : value) (timecontext : option TimeContext)
  : Scope :=
  {[ k := mkEntry result timecontext ]}.

(** [toolz.merge(a, b)]: the later dictionary wins on a shared key. *)
Definition merge (a b : Scope) : Scope := b ∪ a.

(** [toolz.merge(base, *scopes)] *)
Definition merge_all (base : Scope) (scopes : list Scope) : Scope :=
  foldl merge base scopes.

Definition is_TableColumn_or_TableNode (c : OpClass) : bool :=
  match c with TableColumn | TableNode => true | _ => false end.

(** [get_scope]; Python's [None] is the miss.  Comparing against an entry
    stored without a time context unpacks [None]: a [TypeError]. *)
Definition get_scope (scope : Scope) (o : OpInfo) (timecontext : option TimeContext)
  : result value :=
  match scope !! KOp (op_key o) with
  | None => Ok (VRaw RNone)
  | Some entry =>
      match timecontext with
      | None => Ok (entry_value entry)
      | Some cur =>
          if is_TableColumn_or_TableNode (op_class o) then
            match entry_timecontext entry with
            | None => Err TypeError
            | Some old =>
                if bool_decide (compare_timecontext cur old = SUBSET)
                then Ok (entry_value entry)
                else Ok (VRaw RNone)
            end
          else Ok (VRaw RNone)
      end
  end.

(** ** The dispatch registry and the evaluator's monad

    The five dispatched functions live in [ibis.pandas.dispatch] and in the
    backends; the evaluator is parametric in them.  Each invocation is
    logged, so that a run tells which implementations it called, in which
    order and on what data. *)

Inductive AggregationContext : Type := Summarize | OtherAggContext (a : nat).

Inductive event : Type :=
  | EvExecuteLiteral (k : positive)
  | EvComputeTimeContext (k : positive)
  | EvPreExecute (k : positive)
  | EvExecuteNode (k : positive) (data : list value)
  | EvPostExecute (k : positive).

Record Registry : Type := mkRegistry {
  execute_literal : OpInfo → raw → nat → AggregationContext → result value;
  execute_node :
    Expr → list value → Scope → option TimeContext → AggregationContext →
    list nat → result value;
  pre_execute :
    Expr → list nat → Scope → option TimeContext → AggregationContext →
    result Scope;
  post_execute :
    Expr → value → Scope → option TimeContext → AggregationContext →
    list nat → result value;
  compute_time_context :
    Expr → nat → TimeContext → result (list (option TimeContext));
  find_backends : Expr → list nat
}.

(** What is registered for [execute_node] under one operation and the
    kinds of its evaluated inputs. *)
Definition Rule : Type :=
  Scope → option TimeContext → AggregationContext → list nat → result value.

(** Modelled from the spec: the rules registered for [execute_node] are in
    [ibis.pandas.dispatch] and in the backends, which are not among the
    sources.  A call goes to the rule registered for the operation and
    the kinds of its evaluated inputs (section 4.2).  Where there is
    none, a node that comes with no evaluated input at all has no data
    to be computed from, the unbound-data error of section 7; a call with
    evaluated inputs and no rule is the unregistered operator of
    sections 4.2 and 7. *)
Definition dispatch_execute_node (rules : Expr → list value → option Rule)
    (expr : Expr) (data : list value) : Rule :=
  match rules expr data with
  | Some rule => rule
  | None =>
      λ _ _ _ _,
        match data with
        | [] => Err UnboundExpressionError
        | _ :: _ => Err OperationNotDefinedError
        end
  end.

(** A computation fails, or returns with the log of the calls it made. *)
Definition M (A : Type) : Type := result (A * list event).

Definition ret {A} (a : A) : M A := Ok (a, []).

Definition bind {A B} (m : M A) (f : A → M B) : M B :=
  match m with
  | Err e => Err e
  | Ok (a, tr) =>
      match f a with
      | Err e => Err e
      | Ok (b, tr') => Ok (b, tr ++ tr')
      end
  end.

Definition raise {A} (e : error) : M A := Err e.

(** Run a dispatched call and log it. *)
Definition call {A} (ev : event) (r : result A) : M A :=
  match r with Ok a => Ok (a, [ev]) | Err e => Err e end.

(** A call the log does not keep ([get_scope] and the like). *)
Definition lift {A} (r : result A) : M A :=
  match r with Ok a => Ok (a, []) | Err e => Err e end.

Notation "'let*' x ':=' m 'in' k" := (bind m (λ x, k))
  (at level 10, x name, m at level 100, k at level 200,
   format "'[v' 'let*'  x  :=  m  'in'  '/' k ']'").

(** A list comprehension whose body may fail: left to right. *)
Fixpoint for_each {A B} (f : A → M B) (l : list A) : M (list B) :=
  match l with
  | [] => ret []
  | a :: l' => let* b := f a in let* bs := for_each f l' in ret (b :: bs)
  end.

(** [compute_time_context_default] of [ibis/pandas/core.py] *)
Definition compute_time_context_default (node : Expr) (timecontext : option TimeContext)
  : list (option TimeContext) :=
  map (λ _, timecontext) (filter is_computable_input (inputs node)).

(** [compute_time_context_default] of [ibis/pyspark/timecontext.py] *)
Definition pyspark_compute_time_context_default
  (node : Expr) (timecontext : option TimeContext) : list (option TimeContext) :=
  map (λ _, timecontext) (inputs node).

(** The value bound to a sub-expression, the object itself otherwise:
    [get_scope(new_scope, arg.op()) if hasattr(arg, 'op') else arg]. *)
Definition realized (new_scope : Scope) (arg : Input) : M value :=
  match arg with
  | InExpr a => lift (get_scope new_scope (op a) None)
  | InRaw r => ret (VRaw r)
  end.

Section Evaluator.
Context (R : Registry).

(** [execute_until_in_scope]; [fuel] bounds the depth of the recursion
    on sub-expressions.  [post_execute_] is the partial application
    [execute_with_scope] builds.  The three assertions that open the
    function hold by the types of the arguments. *)
Fixpoint execute_until_in_scope (fuel : nat) (expr : Expr) (scope : Scope)
    (timecontext : option TimeContext) (aggcontext : AggregationContext)
    (clients : list nat)
    (post_execute_ : Expr → value → option TimeContext → result value)
    {struct fuel} : M Scope :=
  match fuel with
  | O => raise RecursionDepthExceeded
  | S fuel' =>
      let o := op expr in
      if bool_decide (op_class o = Literal) then
        let* v := call (EvExecuteLiteral (op_key o))
              (execute_literal R o (op_value o) (expr_type o) aggcontext) in
        ret (scope_item (KOp (op_key o)) v timecontext)
      else
        let* cached := lift (get_scope scope o timecontext) in
        if negb (is_None cached) then ret scope
        else
          let computable_args := filter is_computable_input (inputs expr) in
          let* arg_timecontexts :=
            match timecontext with
            | Some tc =>
                call (EvComputeTimeContext (op_key o))
                  (compute_time_context R expr (length computable_args) tc)
            | None => ret (replicate (length computable_args) None)
            end in
          let* pre_executed_scope :=
            call (EvPreExecute (op_key o))
              (pre_execute R expr clients scope timecontext aggcontext) in
          let new_scope := merge scope pre_executed_scope in
          let* cached' := lift (get_scope new_scope o timecontext) in
          if negb (is_None cached') then ret new_scope
          else if negb (length arg_timecontexts =? length computable_args)%nat
          then raise IbisError_arg_timecontexts_differ
          else
            let* scopes :=
              for_each
                (λ '(arg, timecontext),
                   match arg with
                   | InExpr a =>
                       execute_until_in_scope fuel' a new_scope timecontext
                         aggcontext clients post_execute_
                   | InRaw r => ret (scope_item (KRaw r) (VRaw r) timecontext)
                   end)
                (zip computable_args arg_timecontexts) in
            if bool_decide (scopes = []) && negb (bool_decide (computable_args = []))
            then raise UnboundExpressionError
            else if negb (length computable_args =? length scopes)%nat
            then raise AssertionError
            else
              let new_scope := merge_all new_scope scopes in
              let* data := for_each (realized new_scope) computable_args in
              let* result :=
                call (EvExecuteNode (op_key o) data)
                  (execute_node R expr data scope timecontext aggcontext clients) in
              let* computed :=
                call (EvPostExecute (op_key o))
                  (post_execute_ expr result timecontext) in
              ret (scope_item (KOp (op_key o)) computed timecontext)
  end.

(** One element of the comprehension that evaluates the arguments: a
    sub-expression is evaluated in [new_scope] under its own time
    context, any other object becomes a scope item as it is. *)
Definition eval_arg (fuel : nat) (new_scope : Scope)
    (aggcontext : AggregationContext) (clients : list nat)
    (post_execute_ : Expr → value → option TimeContext → result value)
    : Input * option TimeContext → M Scope :=
  λ '(arg, timecontext),
    match arg with
    | InExpr a =>
        execute_until_in_scope fuel a new_scope timecontext
          aggcontext clients post_execute_
    | InRaw r => ret (scope_item (KRaw r) (VRaw r) timecontext)
    end.

(** [execute_with_scope] *)
Definition execute_with_scope (fuel : nat) (expr : Expr) (scope : Scope)
    (timecontext : option TimeContext) (aggcontext : option AggregationContext)
    (clients : option (list nat)) : M value :=
  let o := op expr in
  let clients := default (find_backends R expr) clients in
  let aggcontext := default Summarize aggcontext in
  let* pre_executed_scope :=
    call (EvPreExecute (op_key o))
      (pre_execute R expr clients scope timecontext aggcontext) in
  let new_scope := merge scope pre_executed_scope in
  let* final :=
    execute_until_in_scope fuel expr new_scope timecontext aggcontext clients
      (λ e r tc, post_execute R e r scope tc aggcontext clients) in
  match final !! KOp (op_key o) with
  | Some entry => ret (entry_value entry)
  | None => raise KeyError
  end.

(** The key a parameter is stored under: [k.op()] when it has one. *)
Definition param_key (k : Input) : key :=
  match k with
  | InExpr e => KOp (op_key (op e))
  | InRaw r => KRaw r
  end.

(** [main_execute], the [execute] registered for expressions *)
Definition main_execute (fuel : nat) (expr : Expr)
    (params : option (list (Input * value))) (scope : option Scope)
    (timecontext : option pyobj) (aggcontext : option AggregationContext)
    : M value :=
  let scope := default ∅ scope in
  let* timecontext :=
    match timecontext with
    | Some tc => let* tc' := lift (canonicalize_context tc) in ret (Some tc')
    | None => ret None
    end in
  let params := default [] params in
  let additional_scope :=
    foldl (λ acc kv, merge acc (scope_item (param_key kv.1) kv.2 timecontext))
      ∅ params in
  let new_scope := merge scope additional_scope in
  execute_with_scope fuel expr new_scope timecontext aggcontext None.

(** [expr.schema().names]: table expressions have a schema, the
    expressions of the other operations have no such method. *)
Definition schema (expr : Expr) : result (list string) :=
  match op_class (op expr) with
  | TableNode => Ok (schema_names (op expr))
  | _ => Err AttributeError
  end.

(** [execute_and_reset] *)
Definition execute_and_reset (fuel : nat) (expr : Expr)
    (params : option (list (Input * value))) (scope : option Scope)
    (timecontext : option pyobj) (aggcontext : option AggregationContext)
    : M value :=
  let* result := main_execute fuel expr params scope timecontext aggcontext in
  match result with
  | VFrame res =>
      let* names := lift (schema expr) in
      let* df := lift (reset_index res) in
      let* out := lift (loc_columns df names) in
      ret (VFrame out)
  | VSeries s => ret (VSeries (reset_index_drop s))
  | VRaw _ => ret result
  end.
End Evaluator.

(** ** The CSV client ([ibis/file/csv.py], lines 16-24 and 101-129)

    A file is its columns, header label first; the client's [dictionary]
    maps a table name to a path. *)

Record CSVClient : Type := mkCSVClient {
  dictionary : gmap string string;
  files : gmap string (list (string * list cell))
}.

Definition nrows_of (cols : list (string * list cell)) : nat :=
  match cols with [] => 0%nat | c :: _ => length c.2 end.

(** What [schema.to_pandas()] says of a column: the dates, and the rest. *)
Inductive dtype : Type := datetime64_ns | other_dtype.

#[global] Instance dtype_eq_dec : EqDecision dtype.
Proof. solve_decision. Defined.

(** [dates]: the columns the schema gives as [datetime64[ns]]. *)
Definition dates (schema : list (string * dtype)) : list string :=
  (filter (λ s, s.2 = datetime64_ns) schema).*1.

(** [_read_csv(path, schema, usecols=..., header=0, nrows=...)]: the
    columns of the file named by [usecols] (all of them for [None]), in
    file order, cut to [nrows] rows.  [dates] is passed as [parse_dates]:
    [pd.read_csv] refuses a [usecols] label the header lacks, and a
    [parse_dates] label that is not among the columns it reads.  The conversion of the cells to the
    types of the schema is left out. *)
Definition _read_csv (client : CSVClient) (path : string)
    (schema : list (string * dtype))
    (usecols : option (list string)) (nrows : option nat) : result DataFrame :=
  match files client !! path with
  | None => Err FileNotFoundError
  | Some cols =>
      let? kept :=
        match usecols with
        | None => Ok cols
        | Some names =>
            if forallb (λ n, bool_decide (n ∈ column_names cols)) names
            then Ok (filter (λ c, c.1 ∈ names) cols)
            else Err ValueError
        end in
      if forallb (λ d, bool_decide (d ∈ column_names kept)) (dates schema) then
        let rows :=
          match nrows with
          | None => kept
          | Some n => map (λ c, (c.1, take n c.2)) kept
          end in
        Ok (mkDataFrame (default_index (nrows_of rows)) rows)
      else Err ValueError
  end.

Record Table : Type := mkTable {
  table_key : positive;
  table_name : string;
  table_schema : list (string * dtype)
}.

#[global] Instance Table_eq_dec : EqDecision Table.
Proof. solve_decision. Defined.

(** A selected expression: the [name] attribute of its operation, when it
    has one, and what [get_name()] returns, when it returns. *)
Record SelectionExpr : Type := mkSelectionExpr {
  sel_op_name : option string;
  sel_get_name : option string
}.

(** [getattr(s.op(), 'name', None) or s.get_name()] *)
Definition selection_name (s : SelectionExpr) : result string :=
  let get_name :=
    match sel_get_name s with Some n => Ok n | None => Err ExpressionError end in
  match sel_op_name s with
  | Some n => if bool_decide (n = "") then get_name else Ok n
  | None => get_name
  end.

(** A [Selection] node: its [selections] and the physical tables under
    [op.table] ([physical_tables], from the selection module, gives them). *)
Record Selection : Type := mkSelection {
  selections : list SelectionExpr;
  physical_tables : list Table
}.

(** [pd.Index(usecols) & header.columns] *)
Definition index_intersection (a b : list string) : list string :=
  filter (λ x, x ∈ b) a.

(** Modelled from the spec: [ibis.common.scope.Scope] is not among the
    sources.  [Scope.make_scope] builds the one-entry scope [scope_item]
    builds, and [merge_scope] computes the right-biased union of section
    4.1. *)
Definition merge_scope (ops s : Scope) : Scope := merge ops s.

(** [csv.py] calls [ops.merge_scope(...)] as a statement and drops what it
    returns.  Whether the call also updates [ops] is a matter of the
    [Scope] class, which neither the sources nor the specification
    settle: [updates_receiver] says which, and this is what [ops] holds
    after the call. *)
Definition after_merge_scope (updates_receiver : bool) (ops s : Scope) : Scope :=
  if updates_receiver then merge_scope ops s else ops.

Section CSV.
Context (updates_receiver : bool) (client : CSVClient) (sel : Selection)
        (timecontext : option TimeContext).

(** The columns to read for one table: the body of the loop up to the
    final read. *)
Definition csv_usecols (table : Table) (path : string)
  : result (option (list string)) :=
  if bool_decide (selections sel = []) then Ok None
  else
    let? header :=
      _read_csv client path (table_schema table) None (Some 1%nat) in
    let? usecols := rmap selection_name (selections sel) in
    if negb (length (index_intersection usecols (column_names (df_columns header)))
             =? length usecols)%nat
    then Ok None
    else Ok (Some usecols).

(** What one turn of the loop reads for [table]. *)
Definition csv_table_frame (table : Table) : result DataFrame :=
  match dictionary client !! table_name table with
  | None => Err KeyError
  | Some path =>
      let? usecols := csv_usecols table path in
      _read_csv client path (table_schema table) usecols None
  end.

Fixpoint csv_loop (tables : list Table) (ops : Scope) : result Scope :=
  match tables with
  | [] => Ok ops
  | table :: rest =>
      let? df := csv_table_frame table in
      csv_loop rest
        (after_merge_scope updates_receiver ops
           (scope_item (KOp (table_key table)) (VFrame df) timecontext))
  end.

Definition csv_pre_execute_selection (scope : Scope) : result Scope :=
  let tables :=
    filter (λ t, scope !! KOp (table_key t) = None) (physical_tables sel) in
  csv_loop tables ∅.
End CSV.

(** ** Reading a run *)

(** What [get_scope] without a time context finds for an argument: the
    stored value, under whatever time context it was stored. *)
Definition realized_value (new_scope : Scope) (arg : Input) : value :=
  match arg with
  | InExpr a =>
      match new_scope !! KOp (op_key (op a)) with
      | Some entry => entry_value entry
      | None => VRaw RNone
      end
  | InRaw r => VRaw r
  end.

(** The child ranges of a node and the log of obtaining them. *)
Definition arg_timecontexts_are (R : Registry) (expr : Expr)
    (timecontext : option TimeContext)
    (tcs : list (option TimeContext)) (tr : list event) : Prop :=
  let n := length (filter is_computable_input (inputs expr)) in
  match timecontext with
  | Some tc =>
      compute_time_context R expr n tc = Ok tcs ∧
      tr = [EvComputeTimeContext (op_key (op expr))]
  | None => tcs = replicate n None ∧ tr = []
  end.

(** The error [e] is one a dispatched implementation returned. *)
Definition raised_by_hook (R : Registry)
    (post : Expr → value → option TimeContext → result value) (e : error) : Prop :=
  (∃ o v d a, execute_literal R o v d a = Err e) ∨
  (∃ x data s tc a c, execute_node R x data s tc a c = Err e) ∨
  (∃ x c s tc a, pre_execute R x c s tc a = Err e) ∨
  (∃ x v tc, post x v tc = Err e) ∨
  (∃ x n tc, compute_time_context R x n tc = Err e).

(** How often a run called [execute_node] for the operation [k]. *)
Definition executions_of (k : positive) (tr : list event) : nat :=
  length (filter (λ ev, match ev with
                        | EvExecuteNode k' _ => bool_decide (k' = k)
                        | _ => false
                        end = true) tr).

(** Whether a run called any [execute_node] implementation. *)
Definition calls_execute_node (tr : list event) : bool :=
  existsb (λ ev, match ev with EvExecuteNode _ _ => true | _ => false end) tr.

(** The depth of an expression tree. *)
Fixpoint depth (e : Expr) : nat :=
  match e with
  | mkExpr _ ins =>
      S (foldr (λ i acc, match i with
                         | InExpr a => Nat.max (depth a) acc
                         | InRaw _ => acc
                         end) 0%nat ins)
  end.

(** ** Concrete expressions and registries

    Small inputs on which the evaluator is run below. *)

Module Scenario.
Definition info (k : positive) (c : OpClass) : OpInfo :=
  mkOpInfo k c RNone 0 [].

(** A value operation whose only input is a name: nothing to recurse on. *)
Definition leaf_x : Expr := mkExpr (info 2 ValueOp) [InRaw (RStr "x")].

(** An operation over the same sub-expression twice, as in [x + x]. *)
Definition x_plus_x : Expr :=
  mkExpr (info 1 ValueOp) [InExpr leaf_x; InExpr leaf_x].

(** An operation over one sub-expression, as in [-x]. *)
Definition neg_x : Expr := mkExpr (info 4 ValueOp) [InExpr leaf_x].

(** A table named ["t"] of client 0. *)
Definition table_t : Expr :=
  mkExpr (info 3 TableNode) [InRaw (RStr "t"); InRaw (RClient 0)].

(** A table whose declared columns are [k], [a], [b]. *)
Definition table_s : Expr :=
  mkExpr (mkOpInfo 5 TableNode RNone 0 ["k"; "a"; "b"]) [InRaw (RClient 0)].

(** A table whose declared columns are [a], [b]. *)
Definition table_ab : Expr :=
  mkExpr (mkOpInfo 8 TableNode RNone 0 ["a"; "b"]) [InRaw (RClient 0)].

(** A table that declares a column [z]. *)
Definition table_z : Expr :=
  mkExpr (mkOpInfo 9 TableNode RNone 0 ["a"; "z"]) [InRaw (RClient 0)].

(** A value expression whose result is a table, as a struct is. *)
Definition struct_v : Expr :=
  mkExpr (mkOpInfo 10 ValueOp RNone 0 []) [InRaw (RClient 0)].

(** A column expression. *)
Definition column_c : Expr :=
  mkExpr (info 6 TableColumn) [InRaw (RStr "c"); InExpr table_t].

Definition sum_ints (data : list value) : Z :=
  foldr (λ v acc, match v with VRaw (RInt z) => z + acc | _ => acc end) 0 data.

Definition frame_t : DataFrame :=
  mkDataFrame (SingleIndex None [0; 1]) [("c", [7; 8])].

Definition frame_s : DataFrame :=
  mkDataFrame (SingleIndex (Some "k") [10; 20]) [("b", [1; 2]); ("a", [3; 4])].

(** A table indexed by its column [a], which is kept as a column. *)
Definition frame_ab : DataFrame :=
  mkDataFrame (SingleIndex (Some "a") [3; 4]) [("a", [3; 4]); ("b", [1; 2])].

Definition series_c : Series :=
  mkSeries (Some "c") (SingleIndex None [5; 9]) [7; 8].

(** Tables are read, [x] is 42, a column is taken from its table, any
    other operation adds up its integer arguments; the other hooks are
    the defaults. *)
Definition registry : Registry := {|
  execute_literal := λ _ v _ _, Ok (VRaw v);
  execute_node := λ e data _ _ _ _,
    match op_key (op e) with
    | 2%positive => Ok (VRaw (RInt 42))
    | 3%positive => Ok (VFrame frame_t)
    | 5%positive => Ok (VFrame frame_s)
    | 6%positive => Ok (VSeries series_c)
    | 8%positive => Ok (VFrame frame_ab)
    | 9%positive | 10%positive => Ok (VFrame frame_t)
    | _ => Ok (VRaw (RInt (sum_ints data)))
    end;
  pre_execute := λ _ _ _ _ _, Ok ∅;
  post_execute := λ _ v _ _ _ _, Ok v;
  compute_time_context := λ e _ tc, Ok (compute_time_context_default e (Some tc));
  find_backends := λ _, [0%nat]
|}.

(** The rules of [registry], except that nothing is registered for
    [x]. *)
Definition rules_without_x (e : Expr) (data : list value) : option Rule :=
  match op_key (op e) with
  | 2%positive => None
  | _ => Some (execute_node registry e data)
  end.

Definition registry_without_x : Registry := {|
  execute_literal := execute_literal registry;
  execute_node := dispatch_execute_node rules_without_x;
  pre_execute := pre_execute registry;
  post_execute := post_execute registry;
  compute_time_context := compute_time_context registry;
  find_backends := find_backends registry
|}.

(** A backend whose [pre_execute] materialises the node itself and whose
    [compute_time_context] returns no child range at all. *)
Definition registry_arity : Registry := {|
  execute_literal := execute_literal registry;
  execute_node := execute_node registry;
  pre_execute := λ e _ _ tc _,
    Ok (scope_item (KOp (op_key (op e))) (VFrame frame_t) tc);
  post_execute := post_execute registry;
  compute_time_context := λ _ _ _, Ok [];
  find_backends := find_backends registry
|}.

(** A backend whose [compute_time_context] returns no child range and
    whose [pre_execute] is the default. *)
Definition registry_short : Registry := {|
  execute_literal := execute_literal registry;
  execute_node := execute_node registry;
  pre_execute := pre_execute registry;
  post_execute := post_execute registry;
  compute_time_context := λ _ _ _, Ok [];
  find_backends := find_backends registry
|}.

Definition post_ (R : Registry) (scope : Scope)
  : Expr → value → option TimeContext → result value :=
  λ e r tc, post_execute R e r scope tc Summarize [0%nat].

(** A CSV file with header [a, b, c] and the client that knows it as
    table [t]. *)
Definition file_abc : list (string * list cell) :=
  [("a", [1; 2]); ("b", [3; 4]); ("c", [5; 6])].

Definition csv_client : CSVClient :=
  mkCSVClient {[ "t" := "/data/t.csv" ]} {[ "/data/t.csv" := file_abc ]}.

Definition csv_table : Table :=
  mkTable 3 "t" [("a", other_dtype); ("b", other_dtype); ("c", other_dtype)].

(** The same file under a schema that gives its column [c] as a
    timestamp. *)
Definition csv_table_dated : Table :=
  mkTable 3 "t" [("a", other_dtype); ("b", other_dtype); ("c", datetime64_ns)].

Definition select_from (table : Table) (names : list string) : Selection :=
  mkSelection (map (λ n, mkSelectionExpr (Some n) (Some n)) names) [table].

Definition select (names : list string) : Selection :=
  select_from csv_table names.
End Scenario.

(** ** Conditions on a registry *)

(** Every [compute_time_context] implementation returns one child range
    per computable input of the node it is asked about. *)
Definition well_sized (R : Registry) : Prop :=
  ∀ x tc tcs,
    compute_time_context R x (length (filter is_computable_input (inputs x))) tc
    = Ok tcs →
    length tcs = length (filter is_computable_input (inputs x)).

(** No dispatched implementation ever fails. *)
Definition hooks_never_fail (R : Registry)
    (post : Expr → value → option TimeContext → result value) : Prop :=
  ∀ e, ¬ raised_by_hook R post e.

(** ** Filtering by time context ([ibis/pyspark/timecontext.py], lines 21-42)

    A Spark data frame is its column names and its rows; a cell of a
    timestamp column counts microseconds, where a bound of a time context
    counts nanoseconds. *)

Definition TIME_COL : string := "time".

Record SparkFrame : Type := mkSparkFrame {
  sf_columns : list string;
  sf_rows : list (list cell)
}.

Inductive spark_error : Type := TranslationError | AnalysisException.

Inductive spark_result : Type :=
  | SparkOk (df : SparkFrame)
  | SparkErr (e : spark_error).

(** Spark's test that a column answers to a name: equality of the names,
    up to the case of the letters unless the session is set to tell the
    cases apart. *)
Definition Resolver : Type := string → string → bool.

Definition fold_case (a : Ascii.ascii) : Ascii.ascii :=
  let n := Ascii.nat_of_ascii a in
  if ((65 <=? n) && (n <=? 90))%nat then Ascii.ascii_of_nat (n + 32) else a.

Fixpoint lower (s : string) : string :=
  match s with
  | EmptyString => EmptyString
  | String a s' => String (fold_case a) (lower s')
  end.

(** The resolver of a session with its settings as they come, on names
    in ASCII. *)
Definition caseInsensitiveResolution : Resolver :=
  λ a b, bool_decide (lower a = lower b).

Definition caseSensitiveResolution : Resolver :=
  λ a b, bool_decide (a = b).

(** The positions of the columns [F.col(TIME_COL)] may refer to. *)
Definition candidates (resolver : Resolver) (df : SparkFrame) : list nat :=
  (filter (λ ic, resolver ic.2 TIME_COL = true) (imap pair (sf_columns df))).*1.

(** A bound handed to Spark as a literal: the nanoseconds below the
    microsecond are dropped. *)
Definition literal (t : Z) : Z := t `div` 1000.

(** [(F.col(TIME_COL) >= begin) & (F.col(TIME_COL) < end)] on a row, the
    column being the one at position [i]; the comparison with a missing
    cell does not hold. *)
Definition within (timecontext : TimeContext) (i : nat) (row : list cell)
  : bool :=
  match row !! i with
  | Some t => (literal timecontext.1 <=? t) && (t <? literal timecontext.2)
  | None => false
  end.

(** [filter_by_time_context]; Spark refuses a reference that several
    columns answer to. *)
Definition filter_by_time_context (resolver : Resolver) (df : SparkFrame)
    (timecontext : option TimeContext) : spark_result :=
  match timecontext with
  | None => SparkOk df
  | Some tc =>
      if bool_decide (TIME_COL ∈ sf_columns df) then
        match candidates resolver df with
        | [i] =>
            SparkOk (mkSparkFrame (sf_columns df)
                       (filter (λ row, within tc i row = true) (sf_rows df)))
        | _ => SparkErr AnalysisException
        end
      else SparkErr TranslationError
  end.

(** ** Reading a whole table ([ibis/file/csv.py], lines 94-98)

    [csv_read_table], the [execute_node] rule of a CSV table; the keyword
    arguments the table was made with are the [usecols] and [nrows] that
    [_read_csv] is given. *)
Definition csv_read_table (client : CSVClient) (table : Table)
    (kw_usecols : option (list string)) (kw_nrows : option nat) : result DataFrame :=
  match dictionary client !! table_name table with
  | None => Err KeyError
  | Some path => _read_csv client path (table_schema table) kw_usecols kw_nrows
  end.

(** * Properties *)

(** ** Time-context algebra *)

Ltac compare_cases b e ob oe :=
  unfold compare_timecontext; simpl;
  destruct (Z.leb_spec ob b), (Z.geb_spec oe e), (Z.geb_spec ob b),
    (Z.leb_spec oe e), (Z.ltb_spec oe b), (Z.ltb_spec e ob); simpl;
  split; intros; try discriminate; try reflexivity; try intuition lia.

Lemma compare_timecontext_SUBSET (cur old : TimeContext) :
  compare_timecontext cur old = SUBSET ↔ old.1 <= cur.1 ∧ old.2 >= cur.2.
Proof. destruct cur as [b e], old as [ob oe]. compare_cases b e ob oe. Qed.

Lemma compare_timecontext_SUPERSET (cur old : TimeContext) :
  compare_timecontext cur old = SUPERSET ↔
  (old.1 >= cur.1 ∧ old.2 <= cur.2) ∧ ¬ (old.1 <= cur.1 ∧ old.2 >= cur.2).
Proof. destruct cur as [b e], old as [ob oe]. compare_cases b e ob oe. Qed.

Lemma compare_timecontext_NONOVERLAP (cur old : TimeContext) :
  canonical cur → canonical old →
  compare_timecontext cur old = NONOVERLAP ↔ old.2 < cur.1 ∨ cur.2 < old.1.
Proof.
  destruct cur as [b e], old as [ob oe]. unfold canonical; simpl. intros Hc Ho.
  compare_cases b e ob oe.
Qed.

Lemma compare_timecontext_OVERLAP (cur old : TimeContext) :
  compare_timecontext cur old = OVERLAP ↔
  ¬ (old.1 <= cur.1 ∧ old.2 >= cur.2) ∧ ¬ (old.1 >= cur.1 ∧ old.2 <= cur.2) ∧
  ¬ (old.2 < cur.1 ∨ cur.2 < old.1).
Proof. destruct cur as [b e], old as [ob oe]. compare_cases b e ob oe. Qed.

(** C3. For canonical ranges [cur] and [old], [compare_timecontext cur old]
    is [SUBSET] iff [old.begin <= cur.begin] and [old.end >= cur.end];
    [SUPERSET] iff [old.begin >= cur.begin] and [old.end <= cur.end] and the
    earlier check failed (the two conditions hold together only for equal
    ranges); [NONOVERLAP] iff [old.end < cur.begin] or [cur.end < old.begin];
    [OVERLAP] iff none of the three conditions holds.  The function is
    total, its four outcomes exclude one another, and a range compared
    with itself is a [SUBSET]. *)
Theorem compare_timecontext_spec (cur old : TimeContext) :
  canonical cur → canonical old →
  let sub := old.1 <= cur.1 ∧ old.2 >= cur.2 in
  let sup := old.1 >= cur.1 ∧ old.2 <= cur.2 in
  let non := old.2 < cur.1 ∨ cur.2 < old.1 in
  (compare_timecontext cur old = SUBSET ↔ sub) ∧
  (compare_timecontext cur old = SUPERSET ↔ sup ∧ ¬ sub) ∧
  (sup ∧ sub ↔ cur = old) ∧
  (compare_timecontext cur old = NONOVERLAP ↔ non) ∧
  (compare_timecontext cur old = OVERLAP ↔ ¬ sub ∧ ¬ sup ∧ ¬ non) ∧
  (∃ r, compare_timecontext cur old = r ∧
        ∀ r', compare_timecontext cur old = r' → r' = r) ∧
  compare_timecontext cur cur = SUBSET.
Proof.
  intros Hc Ho sub sup non. subst sub sup non.
  split; [apply compare_timecontext_SUBSET |].
  split; [apply compare_timecontext_SUPERSET |].
  split.
  { destruct cur as [b e], old as [ob oe]; simpl. split.
    - intros [[? ?] [? ?]]. f_equal; lia.
    - intros [= -> ->]. lia. }
  split; [by apply compare_timecontext_NONOVERLAP |].
  split; [apply compare_timecontext_OVERLAP |].
  split.
  { eexists; split; [reflexivity | congruence]. }
  apply compare_timecontext_SUBSET. lia.
Qed.

Lemma compare_timecontext_spec_witness :
  canonical (2, 3) ∧ canonical (1, 4) ∧
  compare_timecontext (2, 3) (1, 4) = SUBSET.
Proof.
  assert (Hc : canonical (2, 3)) by (unfold canonical; simpl; lia).
  assert (Ho : canonical (1, 4)) by (unfold canonical; simpl; lia).
  split; [exact Hc | split; [exact Ho |]].
  apply (proj1 (compare_timecontext_spec (2, 3) (1, 4) Hc Ho)).
  simpl; lia.
Defined.

(** [canonicalize_context] returns [(b, e)] exactly when its argument
    unpacks into two [pd.Timestamp] bounds [b <= e], and what it returns is
    canonical; it fails on a value that does not unpack into two, on a
    bound that is not a [pd.Timestamp] and on a reversed pair. *)
Lemma canonicalize_context_spec (timecontext : pyobj) :
  (∀ b e, canonicalize_context timecontext = Ok (b, e) ↔
          unpack2 timecontext = Some (RTimestamp b, RTimestamp e) ∧ b <= e) ∧
  (∀ c, canonicalize_context timecontext = Ok c → canonical c) ∧
  (unpack2 timecontext = None →
   canonicalize_context timecontext = Err IbisError_should_specify_begin_end) ∧
  (∀ x y, unpack2 timecontext = Some (x, y) → as_Timestamp x = None →
          canonicalize_context timecontext = Err IbisError_begin_not_Timestamp) ∧
  (∀ b y, unpack2 timecontext = Some (RTimestamp b, y) → as_Timestamp y = None →
          canonicalize_context timecontext = Err IbisError_end_not_Timestamp) ∧
  (∀ b e, unpack2 timecontext = Some (RTimestamp b, RTimestamp e) → b > e →
          canonicalize_context timecontext = Err IbisError_begin_after_end).
Proof.
  unfold canonicalize_context, canonical.
  destruct (unpack2 timecontext) as [[x y]|] eqn:Hu.
  2: { repeat split; intros; try discriminate; try reflexivity;
       destruct_and?; discriminate. }
  assert (Hok : ∀ b e,
    match as_Timestamp x with
    | Some begin =>
        match as_Timestamp y with
        | Some end_ =>
            if begin >? end_ then Err IbisError_begin_after_end
            else Ok (begin, end_)
        | None => Err IbisError_end_not_Timestamp
        end
    | None => Err IbisError_begin_not_Timestamp
    end = Ok (b, e) → x = RTimestamp b ∧ y = RTimestamp e ∧ b <= e).
  { intros b e. destruct x as [| |tb| | | | | |]; simpl; try discriminate.
    destruct y as [| |te| | | | | |]; simpl; try discriminate.
    destruct (Z.gtb_spec tb te); [discriminate|]. intros [= -> ->]. auto with lia. }
  repeat split.
  - apply Hok in H as (-> & -> & _). reflexivity.
  - apply Hok in H as (_ & _ & ?). assumption.
  - intros [[= -> ->] Hle]. simpl. destruct (Z.gtb_spec b e); [lia | reflexivity].
  - intros [b e] H. apply Hok in H as (_ & _ & ?). assumption.
  - discriminate.
  - intros x' y' [= <- <-] ->. reflexivity.
  - intros b y' [= -> <-] ->. reflexivity.
  - intros b e [= -> ->] Hgt. simpl. destruct (Z.gtb_spec b e); [reflexivity | lia].
Qed.

Lemma canonicalize_context_spec_witness :
  canonicalize_context (PySeq [RTimestamp 1; RTimestamp 5]) = Ok (1, 5) ∧
  canonicalize_context (PySeq [RTimestamp 5; RTimestamp 1])
    = Err IbisError_begin_after_end ∧
  canonicalize_context (PySeq [RTimestamp 1; RTimestamp 5; RTimestamp 9])
    = Err IbisError_should_specify_begin_end ∧
  canonicalize_context (PySeq [RInt 20091010; RInt 20100101])
    = Err IbisError_begin_not_Timestamp.
Proof.
  split; [| split; [| split]].
  - apply (proj2 (proj1 (canonicalize_context_spec
                            (PySeq [RTimestamp 1; RTimestamp 5])) 1 5)).
    split; [reflexivity | lia].
  - apply (proj2 (proj2 (proj2 (proj2 (proj2 (canonicalize_context_spec
                            (PySeq [RTimestamp 5; RTimestamp 1]))))))  5 1).
    + reflexivity.
    + lia.
  - apply (proj1 (proj2 (proj2 (canonicalize_context_spec
                            (PySeq [RTimestamp 1; RTimestamp 5; RTimestamp 9]))))).
    reflexivity.
  - apply (proj1 (proj2 (proj2 (proj2 (canonicalize_context_spec
                            (PySeq [RInt 20091010; RInt 20100101])))))
             (RInt 20091010) (RInt 20100101)); reflexivity.
Defined.

(** C8. Bounds that could be converted to timestamps are refused all the
    same: [canonicalize_context] converts nothing.  A pair of strings,
    dates among them, fails on its first bound, and so does a pair of
    integers; a string after a timestamp fails as the end.  Only what
    already is a pair of [pd.Timestamp] gets through. *)
Theorem canonicalize_context_converts_nothing :
  canonicalize_context (PySeq [RStr "2017-01-02"; RStr "2017-01-03"])
  = Err IbisError_begin_not_Timestamp ∧
  (∀ s1 s2, canonicalize_context (PySeq [RStr s1; RStr s2])
            = Err IbisError_begin_not_Timestamp) ∧
  (∀ z1 z2, canonicalize_context (PySeq [RInt z1; RInt z2])
            = Err IbisError_begin_not_Timestamp) ∧
  (∀ b s, canonicalize_context (PySeq [RTimestamp b; RStr s])
          = Err IbisError_end_not_Timestamp) ∧
  (∀ x y c, canonicalize_context (PySeq [x; y]) = Ok c →
            x = RTimestamp c.1 ∧ y = RTimestamp c.2).
Proof.
  split; [reflexivity |]. split; [reflexivity |]. split; [reflexivity |].
  split; [reflexivity |].
  intros x y [b e] H.
  apply (proj1 (proj1 (canonicalize_context_spec (PySeq [x; y])) b e)) in H
    as [[= -> ->] _].
  done.
Qed.

(** ** Scope lookup *)

(** Without a time context, [get_scope] returns the stored value of
    any operation that has an entry, whatever time context the entry
    carries.  With a time context, it returns the stored value only for a
    [TableColumn] or [TableNode] whose entry's time context contains the
    requested one ([SUBSET]); for any other relation ([SUPERSET] among
    them) and for any other kind of operation the lookup misses. *)
Lemma get_scope_spec (scope : Scope) (o : OpInfo) :
  (scope !! KOp (op_key o) = None →
   ∀ timecontext, get_scope scope o timecontext = Ok (VRaw RNone)) ∧
  (∀ entry, scope !! KOp (op_key o) = Some entry →
     get_scope scope o None = Ok (entry_value entry) ∧
     ∀ cur,
       (is_TableColumn_or_TableNode (op_class o) = false →
        get_scope scope o (Some cur) = Ok (VRaw RNone)) ∧
       (∀ old,
          is_TableColumn_or_TableNode (op_class o) = true →
          entry_timecontext entry = Some old →
          (compare_timecontext cur old = SUBSET →
           get_scope scope o (Some cur) = Ok (entry_value entry)) ∧
          (compare_timecontext cur old ≠ SUBSET →
           get_scope scope o (Some cur) = Ok (VRaw RNone))) ∧
       (∀ v, get_scope scope o (Some cur) = Ok v → is_None v = false →
          is_TableColumn_or_TableNode (op_class o) = true ∧
          ∃ old, entry_timecontext entry = Some old ∧
                 compare_timecontext cur old = SUBSET ∧ v = entry_value entry)).
Proof.
  unfold get_scope. split.
  - intros ->. reflexivity.
  - intros entry ->. split; [reflexivity |]. intros cur.
    split; [| split].
    + intros ->. reflexivity.
    + intros old -> ->. split; intros Hrel.
      * by rewrite bool_decide_eq_true_2.
      * by rewrite bool_decide_eq_false_2.
    + intros v H Hv.
      destruct (is_TableColumn_or_TableNode (op_class o));
        [| injection H as <-; discriminate].
      split; [reflexivity |].
      destruct (entry_timecontext entry) as [old|]; [| discriminate].
      exists old. case_bool_decide; [| injection H as <-; discriminate].
      injection H as <-. done.
Qed.

(** An entry stored without a time context cannot be compared with a
    requested one: the lookup of a table or column raises. *)
Lemma get_scope_stored_without_timecontext (scope : Scope) (o : OpInfo) entry cur :
  scope !! KOp (op_key o) = Some entry →
  is_TableColumn_or_TableNode (op_class o) = true →
  entry_timecontext entry = None →
  get_scope scope o (Some cur) = Err TypeError.
Proof. unfold get_scope. intros -> -> ->. reflexivity. Qed.

Lemma get_scope_no_timecontext (scope : Scope) (a : Expr) :
  get_scope scope (op a) None = Ok (realized_value scope (InExpr a)).
Proof. unfold get_scope, realized_value. destruct (scope !! _); reflexivity. Qed.

(** A hit returns the value of the entry. *)
Lemma get_scope_hit (scope : Scope) (o : OpInfo) timecontext v :
  get_scope scope o timecontext = Ok v → is_None v = false →
  ∃ entry, scope !! KOp (op_key o) = Some entry ∧ entry_value entry = v.
Proof.
  unfold get_scope. destruct (scope !! KOp (op_key o)) as [entry|].
  2: { intros [= <-]. discriminate. }
  intros H Hv. exists entry. split; [reflexivity |].
  destruct timecontext as [cur|]; [| by injection H].
  destruct (is_TableColumn_or_TableNode _); [| injection H as <-; discriminate].
  destruct (entry_timecontext entry); [| discriminate].
  case_bool_decide; injection H as <-; [done | discriminate].
Qed.

(** ** The evaluator's monad *)

Lemma bind_Ok {A B} (m : M A) (f : A → M B) b tr :
  bind m f = Ok (b, tr) ↔
  ∃ a tr1 tr2, m = Ok (a, tr1) ∧ f a = Ok (b, tr2) ∧ tr = tr1 ++ tr2.
Proof.
  unfold bind. split.
  - destruct m as [[a tr1]|]; [| discriminate].
    destruct (f a) as [[b' tr2]|] eqn:Hf; [| discriminate].
    intros [= <- <-]. by exists a, tr1, tr2.
  - intros (a & tr1 & tr2 & -> & -> & ->). reflexivity.
Qed.

Lemma bind_Err {A B} (m : M A) (f : A → M B) e :
  bind m f = Err e ↔
  m = Err e ∨ ∃ a tr, m = Ok (a, tr) ∧ f a = Err e.
Proof.
  unfold bind. split.
  - destruct m as [[a tr1]|]; [| intros [= <-]; by left].
    destruct (f a) as [[b' tr2]|] eqn:Hf; [discriminate |].
    intros [= <-]. right. by exists a, tr1.
  - intros [-> | (a & tr & -> & ->)]; reflexivity.
Qed.

Lemma call_Ok {A} ev (r : result A) a tr :
  call ev r = Ok (a, tr) ↔ r = Ok a ∧ tr = [ev].
Proof.
  unfold call. destruct r; split; try discriminate.
  - by intros [= <- <-].
  - by intros [[= <-] ->].
  - by intros [? _].
Qed.

Lemma call_Err {A} ev (r : result A) e : call ev r = Err e ↔ r = Err e.
Proof. unfold call. destruct r; split; try discriminate; by intros [= <-]. Qed.

Lemma lift_Ok {A} (r : result A) a tr :
  lift r = Ok (a, tr) ↔ r = Ok a ∧ tr = [].
Proof.
  unfold lift. destruct r; split; try discriminate.
  - by intros [= <- <-].
  - by intros [[= <-] ->].
  - by intros [? _].
Qed.

Lemma lift_Err {A} (r : result A) e : lift r = Err e ↔ r = Err e.
Proof. unfold lift. destruct r; split; try discriminate; by intros [= <-]. Qed.

Lemma for_each_length {A B} (f : A → M B) l bs tr :
  for_each f l = Ok (bs, tr) → length bs = length l.
Proof.
  revert bs tr. induction l as [|a l IH]; simpl; intros bs tr.
  - by intros [= <- _].
  - intros (b & tr1 & tr2 & _ & H & _)%bind_Ok.
    apply bind_Ok in H as (bs' & tr3 & tr4 & H & [= <- _] & _).
    simpl. f_equal. eauto.
Qed.

(** The comprehension runs its body on every element on its own, in list
    order, and puts the logs one after the other. *)
Lemma for_each_Ok {A B} (f : A → M B) l bs tr :
  for_each f l = Ok (bs, tr) ↔
  ∃ rs, Forall2 (λ a r, f a = Ok r) l rs ∧ bs = map fst rs ∧ tr = concat (map snd rs).
Proof.
  revert bs tr. induction l as [|a l IH]; simpl; intros bs tr.
  - split.
    + intros [= <- <-]. exists []. by repeat constructor.
    + intros (rs & Hrs & -> & ->). by inversion Hrs.
  - split.
    + intros (b & tr1 & tr2 & Hfa & H & ->)%bind_Ok.
      apply bind_Ok in H as (bs' & tr3 & tr4 & H & [= <- <-] & ->).
      apply IH in H as (rs & Hrs & -> & ->).
      exists ((b, tr1) :: rs). split; [by constructor |].
      simpl. by rewrite app_nil_r.
    + intros (rs & Hrs & -> & ->).
      inversion Hrs as [|a' [b tr1] l' rs' Hfa Hrs']; subst. simpl.
      apply bind_Ok. exists b, tr1, (concat (map snd rs')).
      split; [done |]. split; [| done].
      apply bind_Ok. exists (map fst rs'), (concat (map snd rs')), [].
      split; [apply IH; eauto |]. split; [done |]. by rewrite app_nil_r.
Qed.

Lemma for_each_realized (new_scope : Scope) (args : list Input) :
  for_each (realized new_scope) args = Ok (map (realized_value new_scope) args, []).
Proof.
  induction args as [|arg args IH]; [reflexivity |].
  simpl. rewrite IH.
  destruct arg as [a | r]; simpl; [| reflexivity].
  rewrite get_scope_no_timecontext. reflexivity.
Qed.

Lemma for_each_Err {A B} (f : A → M B) l e :
  for_each f l = Err e → ∃ a, a ∈ l ∧ f a = Err e.
Proof.
  induction l as [|a l IH]; simpl; [discriminate |].
  intros [H | (b & tr & _ & H)]%bind_Err.
  - exists a. split; [left | done].
  - apply bind_Err in H as [H | (bs & tr' & _ & H)]; [| discriminate].
    destruct (IH H) as (a' & ? & ?). exists a'. split; [by right | done].
Qed.


Lemma is_None_true (v : value) : is_None v = true → v = VRaw RNone.
Proof. destruct v as [[]| |]; simpl; congruence. Qed.

(** ** The evaluator *)

Section EvaluatorFacts.
Context (R : Registry).
Implicit Types (expr : Expr) (scope : Scope) (timecontext : option TimeContext).
Implicit Types (aggcontext : AggregationContext) (clients : list nat).
Implicit Types (post : Expr → value → option TimeContext → result value).

(** What a successful run of a node that is not a literal went through:
    a hit, a hit after [pre_execute], or the evaluation of the arguments
    followed by [execute_node] and [post_execute]. *)
Lemma execute_until_in_scope_inv fuel expr scope timecontext aggcontext
    clients post s tr :
  execute_until_in_scope R (S fuel) expr scope timecontext aggcontext clients
    post = Ok (s, tr) →
  op_class (op expr) ≠ Literal →
  let k := op_key (op expr) in
  let args := filter is_computable_input (inputs expr) in
  (∃ v, get_scope scope (op expr) timecontext = Ok v ∧ is_None v = false ∧
        s = scope ∧ tr = []) ∨
  (∃ tcs tr0 pre v,
      get_scope scope (op expr) timecontext = Ok (VRaw RNone) ∧
      arg_timecontexts_are R expr timecontext tcs tr0 ∧
      pre_execute R expr clients scope timecontext aggcontext = Ok pre ∧
      get_scope (merge scope pre) (op expr) timecontext = Ok v ∧
      is_None v = false ∧
      s = merge scope pre ∧ tr = tr0 ++ [EvPreExecute k]) ∨
  (∃ tcs tr0 pre rs result computed,
      get_scope scope (op expr) timecontext = Ok (VRaw RNone) ∧
      arg_timecontexts_are R expr timecontext tcs tr0 ∧
      pre_execute R expr clients scope timecontext aggcontext = Ok pre ∧
      get_scope (merge scope pre) (op expr) timecontext = Ok (VRaw RNone) ∧
      length tcs = length args ∧
      Forall2 (λ a r, eval_arg R fuel (merge scope pre) aggcontext clients
                        post a = Ok r) (zip args tcs) rs ∧
      let data :=
        map (realized_value (merge_all (merge scope pre) (map fst rs))) args in
      execute_node R expr data scope timecontext aggcontext clients = Ok result ∧
      post expr result timecontext = Ok computed ∧
      s = scope_item (KOp k) computed timecontext ∧
      tr = tr0 ++ [EvPreExecute k] ++ concat (map snd rs) ++
           [EvExecuteNode k data; EvPostExecute k]).
Proof.
  intros H Hlit k args. cbn [execute_until_in_scope] in H.
  rewrite bool_decide_eq_false_2 in H by done.
  apply bind_Ok in H as (cached & t1 & t2 & [Hc ->]%lift_Ok & H & ->).
  destruct (is_None cached) eqn:Hn; simpl in H.
  2: { injection H as <- <-. left. by exists cached. }
  apply is_None_true in Hn as ->.
  apply bind_Ok in H as (tcs & tr0 & t3 & Htcs & H & ->).
  apply bind_Ok in H as (pre & t4 & t5 & [Hpre ->]%call_Ok & H & ->).
  apply bind_Ok in H as (cached' & t6 & t7 & [Hc' ->]%lift_Ok & H & ->).
  assert (Hare : arg_timecontexts_are R expr timecontext tcs tr0).
  { unfold arg_timecontexts_are. destruct timecontext as [tc|].
    - by apply call_Ok in Htcs.
    - by injection Htcs as <- <-. }
  destruct (is_None cached') eqn:Hn'; simpl in H.
  2: { injection H as <- <-. right; left. by exists tcs, tr0, pre, cached'. }
  apply is_None_true in Hn' as ->.
  fold args in H.
  destruct (length tcs =? length args)%nat eqn:Hlen; simpl in H; [| discriminate].
  apply Nat.eqb_eq in Hlen.
  apply bind_Ok in H as (scopes & t8 & t9 & Hfor & H & ->).
  destruct (bool_decide (scopes = []) && negb (bool_decide (args = [])));
    [discriminate |].
  destruct (negb (length args =? length scopes)%nat); [discriminate |].
  rewrite for_each_realized in H. simpl in H.
  apply for_each_Ok in Hfor as (rs & Hrs & -> & ->).
  destruct (execute_node R expr _ scope timecontext aggcontext clients)
    as [result0|] eqn:Hexec; simpl in H; [| discriminate].
  destruct (post expr result0 timecontext) as [computed|] eqn:Hpost;
    simpl in H; [| discriminate].
  injection H as <- <-.
  right; right. exists tcs, tr0, pre, rs, result0, computed.
  repeat (split; [done |]). reflexivity.
Qed.

Lemma get_scope_Err scope (o : OpInfo) timecontext e :
  get_scope scope o timecontext = Err e → e = TypeError.
Proof.
  unfold get_scope. destruct (scope !! _); [| discriminate].
  destruct timecontext; [| discriminate].
  destruct (is_TableColumn_or_TableNode _); [| discriminate].
  destruct (entry_timecontext _); [| by intros [= <-]].
  case_bool_decide; discriminate.
Qed.

Lemma depth_input (a expr : Expr) :
  InExpr a ∈ inputs expr → (depth a < depth expr)%nat.
Proof.
  destruct expr as [i ins]. simpl. intros Hin.
  apply Nat.lt_succ_r.
  induction ins as [|x ins IH]; [by apply elem_of_nil in Hin |].
  apply elem_of_cons in Hin as [<- | Hin]; simpl.
  - lia.
  - specialize (IH Hin). destruct x; lia.
Qed.

(** Where a failure of the evaluator comes from: a dispatched
    implementation, [get_scope] comparing with an entry that has no time
    context, the length check on the child ranges, or the depth bound of
    this model.  [UnboundExpressionError] is not among the evaluator's
    own: the list of scopes has one element per computable argument, so
    it is empty only when there is no such argument. *)
Lemma execute_until_in_scope_Err fuel :
  ∀ expr scope timecontext aggcontext clients post e,
    execute_until_in_scope R fuel expr scope timecontext aggcontext clients
      post = Err e →
    raised_by_hook R post e ∨ e = TypeError ∨
    e = IbisError_arg_timecontexts_differ ∨
    (e = RecursionDepthExceeded ∧ (fuel < depth expr)%nat).
Proof.
  induction fuel as [|fuel IH]; intros expr scope timecontext aggcontext
    clients post e H.
  { injection H as <-. do 3 right. split; [done |]. destruct expr; simpl; lia. }
  cbn [execute_until_in_scope] in H.
  set (args := filter is_computable_input (inputs expr)) in *.
  case_bool_decide as Hlit.
  { apply bind_Err in H as [H%call_Err | (v & tr & _ & H)]; [| discriminate].
    left. left. eauto. }
  apply bind_Err in H as [H%lift_Err%get_scope_Err | (cached & t1 & _ & H)];
    [by right; left |].
  destruct (is_None cached); simpl in H; [| discriminate].
  apply bind_Err in H as [H | (tcs & t2 & Htcs & H)].
  { destruct timecontext as [tc|]; [| discriminate].
    apply call_Err in H. left. do 4 right. eauto. }
  apply bind_Err in H as [H%call_Err | (pre & t3 & _ & H)].
  { left. right; right; left. eauto 10. }
  apply bind_Err in H as [H%lift_Err%get_scope_Err | (cached' & t4 & _ & H)];
    [by right; left |].
  destruct (is_None cached'); simpl in H; [| discriminate].
  destruct (length tcs =? length args)%nat eqn:Hlen; simpl in H.
  2: { injection H as <-. by right; right; left. }
  apply Nat.eqb_eq in Hlen.
  apply bind_Err in H as [H | (scopes & t5 & Hfor & H)].
  { apply for_each_Err in H as ([arg tc] & Hin & H).
    destruct arg as [a | r]; [| discriminate].
    apply IH in H as [H | [H | [H | [-> Hd]]]]; auto.
    do 3 right. split; [done |].
    apply elem_of_zip_l in Hin. simpl in Hin.
    assert (InExpr a ∈ inputs expr) as Ha%depth_input.
    { by apply list_elem_of_filter in Hin as [_ ?]. }
    lia. }
  apply for_each_length in Hfor. rewrite length_zip, Hlen in Hfor.
  assert ((length args =? length scopes)%nat = true) as Hassert.
  { apply Nat.eqb_eq. lia. }
  destruct (bool_decide (scopes = []) && negb (bool_decide (args = []))) eqn:Hg.
  { apply andb_true_iff in Hg as [Hs%bool_decide_eq_true Ha%negb_true_iff].
    apply bool_decide_eq_false in Ha. subst scopes. simpl in Hfor.
    destruct args; [done | simpl in Hfor; lia]. }
  rewrite Hassert in H. simpl in H.
  rewrite for_each_realized in H. simpl in H.
  destruct (execute_node R expr _ scope timecontext aggcontext clients)
    as [res|] eqn:Hexec; simpl in H.
  - destruct (post expr res timecontext) eqn:Hpost; simpl in H;
      [discriminate |]. injection H as <-. left. do 3 right. left. eauto.
  - injection H as <-. left. right; left. eauto 10.
Qed.

(** Fuel beyond the depth of the expression is never the reason of a
    failure. *)
Lemma enough_fuel fuel expr scope timecontext aggcontext clients post :
  (depth expr ≤ fuel)%nat →
  ¬ raised_by_hook R post RecursionDepthExceeded →
  execute_until_in_scope R fuel expr scope timecontext aggcontext clients post
    ≠ Err RecursionDepthExceeded.
Proof.
  intros Hd Hh H.
  apply execute_until_in_scope_Err in H as [H | [H | [H | [_ H]]]];
    [done | discriminate | discriminate | lia].
Qed.

(** The log of a hit, before or after [pre_execute], holds no call of
    [execute_node]. *)
Lemma calls_execute_node_app (tr1 tr2 : list event) :
  calls_execute_node (tr1 ++ tr2) = calls_execute_node tr1 || calls_execute_node tr2.
Proof. apply existsb_app. Qed.

Lemma arg_timecontexts_log expr timecontext tcs tr0 :
  arg_timecontexts_are R expr timecontext tcs tr0 → calls_execute_node tr0 = false.
Proof.
  unfold arg_timecontexts_are. destruct timecontext; intros [_ ->]; reflexivity.
Qed.

(** A run that finds the node in scope is over at once. *)
Lemma execute_until_in_scope_hit fuel expr scope timecontext aggcontext clients
    post v :
  op_class (op expr) ≠ Literal →
  get_scope scope (op expr) timecontext = Ok v →
  is_None v = false →
  execute_until_in_scope R (S fuel) expr scope timecontext aggcontext clients
    post = Ok (scope, []).
Proof.
  intros Hlit Hget Hv. cbn [execute_until_in_scope].
  rewrite bool_decide_eq_false_2 by done.
  rewrite Hget. simpl. rewrite Hv. reflexivity.
Qed.

(** C1. When [get_scope] finds a value for a node that is not a literal
    as the evaluation of the node starts, [execute_until_in_scope]
    returns the scope it was given, whose entry for the node holds the
    value found, and it calls no dispatched implementation at all:
    neither [execute_node] nor any other, for the node or for anything
    below it. *)
Theorem memo_hit_skips_subtree fuel expr scope timecontext aggcontext clients
    post v :
  op_class (op expr) ≠ Literal →
  get_scope scope (op expr) timecontext = Ok v →
  is_None v = false →
  execute_until_in_scope R (S fuel) expr scope timecontext aggcontext clients
    post = Ok (scope, []) ∧
  ∃ entry, scope !! KOp (op_key (op expr)) = Some entry ∧ entry_value entry = v.
Proof.
  intros Hlit Hget Hv.
  split; [by eapply execute_until_in_scope_hit | by eapply get_scope_hit].
Qed.

(** At the entry point: when the node is found after the root
    [pre_execute], the cached value is the result and [pre_execute] is
    the only call. *)
Lemma execute_with_scope_memo_hit fuel expr scope timecontext
    (agg : option AggregationContext) (cl : option (list nat)) pre v :
  op_class (op expr) ≠ Literal →
  pre_execute R expr (default (find_backends R expr) cl) scope timecontext
    (default Summarize agg) = Ok pre →
  get_scope (merge scope pre) (op expr) timecontext = Ok v →
  is_None v = false →
  execute_with_scope R (S fuel) expr scope timecontext agg cl
    = Ok (v, [EvPreExecute (op_key (op expr))]).
Proof.
  intros Hlit Hpre Hget Hv. unfold execute_with_scope.
  rewrite Hpre. simpl call.
  pose proof (execute_until_in_scope_hit fuel expr (merge scope pre)
                timecontext (default Summarize agg)
                (default (find_backends R expr) cl)
                (λ e r tc, post_execute R e r scope tc
                             (default Summarize agg)
                             (default (find_backends R expr) cl))
                v Hlit Hget Hv) as Hrun.
  destruct (get_scope_hit _ _ _ _ Hget Hv) as (entry & Hentry & <-).
  unfold bind at 1. unfold bind at 1. rewrite Hrun, Hentry. reflexivity.
Qed.


(** C5 (as the code has it). When the evaluation of a node reaches its
    arguments, every computable input is evaluated on its own against one
    and the same scope, the node's scope merged with what [pre_execute]
    returned: the scope a sibling is evaluated in does not depend on
    what an earlier sibling produced.  The runs follow the order of the
    inputs (their logs come one after the other, in that order), and the
    scopes they return are merged only afterwards. *)
Theorem siblings_evaluated_in_order_from_one_scope fuel expr scope timecontext
    aggcontext clients post s tr :
  execute_until_in_scope R (S fuel) expr scope timecontext aggcontext clients
    post = Ok (s, tr) →
  op_class (op expr) ≠ Literal →
  calls_execute_node tr = true →
  let args := filter is_computable_input (inputs expr) in
  ∃ pre (tcs : list (option TimeContext)) rs tr0 data,
    pre_execute R expr clients scope timecontext aggcontext = Ok pre ∧
    length tcs = length args ∧
    length rs = length args ∧
    (∀ i arg tc,
       args !! i = Some arg → tcs !! i = Some tc →
       ∃ r, rs !! i = Some r ∧
            eval_arg R fuel (merge scope pre) aggcontext clients post (arg, tc)
            = Ok r) ∧
    calls_execute_node tr0 = false ∧
    tr = tr0 ++ concat (map snd rs) ++
         [EvExecuteNode (op_key (op expr)) data;
          EvPostExecute (op_key (op expr))] ∧
    data = map (realized_value (merge_all (merge scope pre) (map fst rs))) args.
Proof.
  intros H Hlit Hcalls args. subst args.
  apply execute_until_in_scope_inv in H as
    [(v & _ & _ & _ & ->) |
     [(tcs & tr0 & pre & v & _ & Hare & _ & _ & _ & _ & ->) |
      (tcs & tr0 & pre & rs & res & computed & _ & Hare & Hpre & _ & Hlen &
       Hrs & Hexec & Hpost & -> & ->)]]; [discriminate | | | done].
  { rewrite calls_execute_node_app, (arg_timecontexts_log _ _ _ _ Hare) in Hcalls.
    discriminate. }
  eexists pre, tcs, rs, (tr0 ++ [EvPreExecute (op_key (op expr))]), _.
  split; [done |]. split; [done |]. split.
  { apply Forall2_length in Hrs. rewrite length_zip in Hrs. lia. }
  split.
  { intros i arg tc Harg Htc.
    assert (zip (filter is_computable_input (inputs expr)) tcs !! i
            = Some (arg, tc)) as Hz.
    { apply lookup_zip_with_Some. eauto. }
    destruct (Forall2_lookup_l _ _ _ _ _ Hrs Hz) as (r & Hr & Hrun). eauto. }
  split.
  { rewrite calls_execute_node_app, (arg_timecontexts_log _ _ _ _ Hare).
    reflexivity. }
  split; [| reflexivity]. by rewrite <- !app_assoc.
Qed.


(** C7 (as the code has it). The default [compute_time_context] of the
    evaluator returns the parent's range once for every computable input
    and for no other.  When a range is set, the lookups before and after
    [pre_execute] miss and [pre_execute] succeeds, a list of child ranges
    whose length is not the number of computable inputs makes the
    evaluation fail with the length error; an evaluation that goes on to
    the arguments has exactly one child range for each of them. *)
Theorem arity_mismatch_is_fatal fuel expr scope tc aggcontext clients post :
  let args := filter is_computable_input (inputs expr) in
  compute_time_context_default expr (Some tc) = replicate (length args) (Some tc) ∧
  (∀ tcs pre,
     op_class (op expr) ≠ Literal →
     get_scope scope (op expr) (Some tc) = Ok (VRaw RNone) →
     compute_time_context R expr (length args) tc = Ok tcs →
     pre_execute R expr clients scope (Some tc) aggcontext = Ok pre →
     get_scope (merge scope pre) (op expr) (Some tc) = Ok (VRaw RNone) →
     length tcs ≠ length args →
     execute_until_in_scope R (S fuel) expr scope (Some tc) aggcontext clients
       post = Err IbisError_arg_timecontexts_differ) ∧
  (∀ s tr,
     op_class (op expr) ≠ Literal →
     execute_until_in_scope R (S fuel) expr scope (Some tc) aggcontext clients
       post = Ok (s, tr) →
     calls_execute_node tr = true →
     ∃ tcs, compute_time_context R expr (length args) tc = Ok tcs ∧
            length tcs = length args).
Proof.
  intros args. split; [| split].
  - unfold compute_time_context_default. fold args.
    induction args as [|a l IH]; simpl; [done | by rewrite IH].
  - intros tcs pre Hlit Hget Htcs Hpre Hget' Hlen.
    cbn [execute_until_in_scope].
    rewrite bool_decide_eq_false_2 by done.
    rewrite Hget. simpl. fold args. rewrite Htcs. simpl.
    rewrite Hpre. simpl. rewrite Hget'. simpl.
    apply Nat.eqb_neq in Hlen. fold args. by rewrite Hlen.
  - intros s tr Hlit H Hcalls.
    apply execute_until_in_scope_inv in H as
      [(v & _ & _ & _ & ->) |
       [(tcs & tr0 & pre & v & _ & Hare & _ & _ & _ & _ & ->) |
        (tcs & tr0 & pre & rs & res & computed & _ & Hare & Hpre & _ & Hlen &
         _)]]; [discriminate | | | done].
    { rewrite calls_execute_node_app, (arg_timecontexts_log _ _ _ _ Hare)
        in Hcalls. discriminate. }
    exists tcs. split; [| done]. by destruct Hare.
Qed.
End EvaluatorFacts.

(** ** The evaluator on concrete inputs *)

Section Runs.
Import Scenario.

Lemma memo_hit_skips_subtree_witness :
  execute_until_in_scope registry 1 table_t
    (scope_item (KOp 3) (VFrame frame_t) (Some (1, 4))) (Some (2, 3))
    Summarize [0%nat] (post_ registry ∅)
  = Ok (scope_item (KOp 3) (VFrame frame_t) (Some (1, 4)), []).
Proof.
  refine (proj1 (memo_hit_skips_subtree registry 0 table_t
                   (scope_item (KOp 3) (VFrame frame_t) (Some (1, 4)))
                   (Some (2, 3)) Summarize [0%nat] (post_ registry ∅)
                   (VFrame frame_t) _ _ _)).
  - discriminate.
  - vm_compute. reflexivity.
  - reflexivity.
Defined.

Lemma get_scope_spec_witness :
  get_scope (scope_item (KOp 3) (VFrame frame_t) (Some (1, 4))) (op table_t)
    (Some (2, 3)) = Ok (VFrame frame_t) ∧
  get_scope (scope_item (KOp 3) (VFrame frame_t) (Some (1, 4))) (op table_t)
    (Some (0, 5)) = Ok (VRaw RNone).
Proof.
  pose proof (proj2 (get_scope_spec
                       (scope_item (KOp 3) (VFrame frame_t) (Some (1, 4)))
                       (op table_t))
                (mkEntry (VFrame frame_t) (Some (1, 4)))) as H.
  assert (scope_item (KOp 3) (VFrame frame_t) (Some (1, 4))
            !! KOp (op_key (op table_t))
          = Some (mkEntry (VFrame frame_t) (Some (1, 4)))) as Hl
    by (vm_compute; reflexivity).
  split.
  - apply (proj1 (proj1 (proj2 (proj2 (H Hl) (2, 3))) (1, 4) eq_refl eq_refl)).
    reflexivity.
  - apply (proj2 (proj1 (proj2 (proj2 (H Hl) (0, 5))) (1, 4) eq_refl eq_refl)).
    discriminate.
Defined.

(** C2. An entry stored without a time context, as every evaluation
    without one stores its results and as [scope_item] builds it when
    given [None], is compared with the requested time context all the
    same: the lookup of a table or a column under a time context
    neither hits nor misses, it raises [TypeError].  So does the
    evaluation of a table under a time context in the scope that its
    evaluation without one returned. *)
Theorem get_scope_raises_on_entry_without_timecontext :
  (∀ (scope : Scope) o v cur,
     get_scope (<[KOp (op_key o) := mkEntry v None]> scope) o (Some cur)
     = if is_TableColumn_or_TableNode (op_class o)
       then Err TypeError else Ok (VRaw RNone)) ∧
  execute_until_in_scope registry 1 table_t ∅ None Summarize [0%nat]
    (post_ registry ∅)
  = Ok (scope_item (KOp 3) (VFrame frame_t) None,
        [EvPreExecute 3; EvExecuteNode 3 [VRaw (RClient 0)]; EvPostExecute 3]) ∧
  get_scope (scope_item (KOp 3) (VFrame frame_t) None) (op table_t)
    (Some (1, 5)) = Err TypeError ∧
  main_execute registry 1 table_t None
    (Some (scope_item (KOp 3) (VFrame frame_t) None))
    (Some (PySeq [RTimestamp 1; RTimestamp 5])) None = Err TypeError.
Proof.
  split.
  { intros scope o v cur. unfold get_scope. rewrite lookup_insert_eq. simpl.
    reflexivity. }
  repeat split; vm_compute; reflexivity.
Qed.



(** C5, refuted as stated. In [x + x] both inputs are the sub-expression
    [x], which is not in scope.  The evaluator runs [execute_node] for [x]
    twice, once for each sibling: the entry the first sibling produced
    is not in the scope the second one is evaluated in. *)
Lemma shared_subexpression_evaluated_per_sibling :
  ∃ s tr,
    execute_until_in_scope registry 2 x_plus_x ∅ None Summarize [0%nat]
      (post_ registry ∅) = Ok (s, tr) ∧
    tr = [EvPreExecute 1;
          EvPreExecute 2; EvExecuteNode 2 []; EvPostExecute 2;
          EvPreExecute 2; EvExecuteNode 2 []; EvPostExecute 2;
          EvExecuteNode 1 [VRaw (RInt 42); VRaw (RInt 42)]; EvPostExecute 1] ∧
    executions_of 2 tr = 2%nat ∧
    ¬ (executions_of 2 tr ≤ 1)%nat.
Proof.
  eexists _, _. split; [vm_compute; reflexivity |].
  split; [reflexivity |]. split; [reflexivity |]. vm_compute. lia.
Qed.

Lemma siblings_evaluated_in_order_from_one_scope_witness :
  ∃ pre (tcs : list (option TimeContext)) rs tr0 data,
    pre_execute registry x_plus_x [0%nat] ∅ None Summarize = Ok pre ∧
    length tcs = 2%nat ∧
    length rs = 2%nat ∧
    (∀ i arg tc,
       [InExpr leaf_x; InExpr leaf_x] !! i = Some arg → tcs !! i = Some tc →
       ∃ r, rs !! i = Some r ∧
            eval_arg registry 1 (merge ∅ pre) Summarize [0%nat]
              (post_ registry ∅) (arg, tc) = Ok r) ∧
    calls_execute_node tr0 = false ∧
    [EvPreExecute 1;
     EvPreExecute 2; EvExecuteNode 2 []; EvPostExecute 2;
     EvPreExecute 2; EvExecuteNode 2 []; EvPostExecute 2;
     EvExecuteNode 1 [VRaw (RInt 42); VRaw (RInt 42)]; EvPostExecute 1]
    = tr0 ++ concat (map snd rs) ++ [EvExecuteNode 1 data; EvPostExecute 1] ∧
    data = map (realized_value (merge_all (merge ∅ pre) (map fst rs)))
             [InExpr leaf_x; InExpr leaf_x].
Proof.
  apply (siblings_evaluated_in_order_from_one_scope registry 1 x_plus_x ∅ None
           Summarize [0%nat] (post_ registry ∅)
           (scope_item (KOp 1) (VRaw (RInt 84)) None)).
  - vm_compute. reflexivity.
  - discriminate.
  - reflexivity.
Defined.


(** At the entry point, with and without a time context; with the rule
    for [x] in place the same expression evaluates. *)
Lemma unbound_leaf_fails_execute :
  main_execute registry_without_x 2 neg_x None None None None
  = Err UnboundExpressionError ∧
  main_execute registry_without_x 2 neg_x None None
    (Some (PySeq [RTimestamp 1; RTimestamp 5])) None
  = Err UnboundExpressionError ∧
  main_execute registry_without_x 2 neg_x
    (Some [(InExpr leaf_x, VRaw (RInt 7))]) None None None
  = Ok (VRaw (RInt 7),
        [EvPreExecute 4; EvPreExecute 4; EvExecuteNode 4 [VRaw (RInt 7)];
         EvPostExecute 4]).
Proof. repeat split; vm_compute; reflexivity. Qed.

(** C7, refuted as stated. Under the time context [(1, 5)] the table [t]
    has one computable input and [compute_time_context] returns no child
    range; [pre_execute] puts the table in scope, and the evaluation
    returns without an error.  The PySpark default, for its part, returns
    a range for each of the two inputs of [t], the name included, which
    is no computable input. *)
Lemma arity_mismatch_not_detected :
  length (filter is_computable_input (inputs table_t)) = 1%nat ∧
  compute_time_context registry_arity table_t 1 (1, 5) = Ok [] ∧
  execute_until_in_scope registry_arity 2 table_t ∅ (Some (1, 5)) Summarize
    [0%nat] (post_ registry_arity ∅)
  = Ok (scope_item (KOp 3) (VFrame frame_t) (Some (1, 5)),
        [EvComputeTimeContext 3; EvPreExecute 3]) ∧
  pyspark_compute_time_context_default table_t (Some (1, 5))
  = [Some (1, 5); Some (1, 5)].
Proof.
  split; [reflexivity |]. split; [reflexivity |].
  split; [vm_compute; reflexivity | reflexivity].
Qed.

Lemma arity_mismatch_is_fatal_witness :
  compute_time_context_default table_t (Some (1, 5)) = [Some (1, 5)] ∧
  execute_until_in_scope registry_short 1 table_t ∅ (Some (1, 5)) Summarize
    [0%nat] (post_ registry_short ∅) = Err IbisError_arg_timecontexts_differ.
Proof.
  pose proof (arity_mismatch_is_fatal registry_short 0 table_t ∅ (1, 5)
                Summarize [0%nat] (post_ registry_short ∅)) as [Hd [Hm _]].
  split; [exact Hd |].
  apply (Hm [] ∅); try reflexivity; try discriminate.
Defined.
End Runs.

(** ** [execute_and_reset] *)

Lemma insert_front_ok (ins cols : list (string * list cell)) :
  NoDup (column_names (ins ++ cols)) → insert_front ins cols = Ok (ins ++ cols).
Proof.
  induction ins as [|[n v] ins IH]; simpl; [done |].
  intros [Hn Hnd]%NoDup_cons. rewrite (IH Hnd).
  by rewrite bool_decide_eq_false_2.
Qed.

Lemma filter_label_absent (cols : list (string * list cell)) (n : string) :
  n ∉ column_names cols → filter (λ c, c.1 = n) cols = [].
Proof.
  induction cols as [|[m v] cols IH]; simpl; [done |].
  intros [Hne Hn]%not_elem_of_cons.
  rewrite filter_cons_False by (simpl; congruence). auto.
Qed.

Lemma filter_label_unique (cols : list (string * list cell)) (n : string) :
  NoDup (column_names cols) → n ∈ column_names cols →
  ∃ v, filter (λ c, c.1 = n) cols = [(n, v)].
Proof.
  induction cols as [|[m v] cols IH]; simpl.
  { intros _ Hin. by apply elem_of_nil in Hin. }
  intros [Hm Hnd]%NoDup_cons Hin.
  destruct (decide (m = n)) as [-> | Hne].
  - exists v. rewrite filter_cons_True by done.
    by rewrite filter_label_absent.
  - rewrite filter_cons_False by (simpl; congruence).
    apply elem_of_cons in Hin as [-> | Hin]; [done | auto].
Qed.

Lemma select_columns_ok (cols : list (string * list cell)) (names : list string) :
  NoDup (column_names cols) →
  (∀ n, n ∈ names → n ∈ column_names cols) →
  ∃ out, select_columns cols names = Ok out ∧
         column_names out = names ∧
         ∀ c, c ∈ out ↔ c ∈ cols ∧ c.1 ∈ names.
Proof.
  intros Hnd. induction names as [|n names IH]; intros Hin; simpl.
  { exists []. split; [done |]. split; [done |]. intros c.
    split; [by intros ?%elem_of_nil | by intros [_ ?%elem_of_nil]]. }
  destruct (filter_label_unique cols n Hnd) as [v Hv]; [apply Hin; left |].
  destruct IH as (out & -> & Hnames & Hout).
  { intros m Hm. apply Hin. by right. }
  rewrite Hv. exists ((n, v) :: out). split; [done |].
  split; [simpl; by rewrite Hnames |].
  assert ((n, v) ∈ cols) as Hnv.
  { assert ((n, v) ∈ filter (λ c, c.1 = n) cols) as H by (rewrite Hv; left).
    by apply list_elem_of_filter in H as [_ ?]. }
  intros c. rewrite !elem_of_cons, Hout. split.
  - intros [-> | [? ?]]; [split; [done | by left] | split; [done | by right]].
  - intros [Hc [Hcn | Hcn]]; [left | by right].
    assert (c ∈ filter (λ c, c.1 = n) cols) as H
      by (by apply list_elem_of_filter).
    rewrite Hv in H. by apply list_elem_of_singleton in H.
Qed.

(** C9 (as the code has it). Where [execute] returns a table for a table
    expression, and the labels of the table (the levels of its index,
    which [reset_index] turns into columns, and its columns) are distinct
    and include the names of the expression's schema, [execute_and_reset]
    returns it with the index [0 .. n-1] and with the columns the schema
    names, in the schema's order, each taken as it is from the table;
    where [execute] returns a column, it returns the column with the index
    [0 .. n-1] and the same name and cells; any other result is returned
    as [execute] returned it. *)
Theorem execute_and_reset_spec (R : Registry) fuel expr params scope timecontext
    aggcontext v tr :
  main_execute R fuel expr params scope timecontext aggcontext = Ok (v, tr) →
  match v with
  | VFrame res =>
      let all := index_columns res ++ df_columns res in
      op_class (op expr) = TableNode →
      NoDup (column_names all) →
      (∀ n, n ∈ schema_names (op expr) → n ∈ column_names all) →
      ∃ out,
        execute_and_reset R fuel expr params scope timecontext aggcontext
        = Ok (VFrame out, tr) ∧
        df_index out = default_index (index_len (df_index res)) ∧
        column_names (df_columns out) = schema_names (op expr) ∧
        ∀ c, c ∈ df_columns out ↔ c ∈ all ∧ c.1 ∈ schema_names (op expr)
  | VSeries s =>
      ∃ out,
        execute_and_reset R fuel expr params scope timecontext aggcontext
        = Ok (VSeries out, tr) ∧
        s_index out = default_index (index_len (s_index s)) ∧
        s_values out = s_values s ∧ s_name out = s_name s
  | VRaw r =>
      execute_and_reset R fuel expr params scope timecontext aggcontext
      = Ok (VRaw r, tr)
  end.
Proof.
  intros Hrun. unfold execute_and_reset. rewrite Hrun.
  destruct v as [r | s | res]; simpl.
  - by rewrite app_nil_r.
  - eexists. split; [by rewrite app_nil_r |]. done.
  - intros Htable Hnd Hin. unfold schema. rewrite Htable. simpl.
    unfold reset_index. rewrite (insert_front_ok _ _ Hnd). simpl.
    destruct (select_columns_ok _ _ Hnd Hin) as (out & Hsel & Hnames & Hout).
    unfold loc_columns. simpl. rewrite Hsel. simpl.
    eexists. split; [by rewrite app_nil_r |]. done.
Qed.

Section ResetRuns.
Import Scenario.

(** C9, refuted as stated. [execute] returns a table for each of three
    expressions, and [execute_and_reset] raises: the table of the first
    is indexed by its column [a], which [reset_index] cannot insert a
    second time; the schema of the second names a column [z] that the
    table does not have; the third is no table expression and has no
    schema. *)
Lemma execute_and_reset_raises_where_execute_returns :
  (main_execute registry 1 table_ab None None None None
   = Ok (VFrame frame_ab,
         [EvPreExecute 8; EvPreExecute 8; EvExecuteNode 8 [VRaw (RClient 0)];
          EvPostExecute 8]) ∧
   execute_and_reset registry 1 table_ab None None None None
   = Err ValueError) ∧
  (main_execute registry 1 table_z None None None None
   = Ok (VFrame frame_t,
         [EvPreExecute 9; EvPreExecute 9; EvExecuteNode 9 [VRaw (RClient 0)];
          EvPostExecute 9]) ∧
   execute_and_reset registry 1 table_z None None None None
   = Err KeyError) ∧
  (main_execute registry 1 struct_v None None None None
   = Ok (VFrame frame_t,
         [EvPreExecute 10; EvPreExecute 10;
          EvExecuteNode 10 [VRaw (RClient 0)]; EvPostExecute 10]) ∧
   execute_and_reset registry 1 struct_v None None None None
   = Err AttributeError).
Proof. repeat split; vm_compute; reflexivity. Qed.

Lemma execute_and_reset_spec_witness :
  ∃ out,
    execute_and_reset registry 2 table_s None None
      (Some (PySeq [RTimestamp 1; RTimestamp 5])) None
    = Ok (VFrame out,
          [EvPreExecute 5; EvComputeTimeContext 5; EvPreExecute 5;
           EvExecuteNode 5 [VRaw (RClient 0)]; EvPostExecute 5]) ∧
    df_index out = SingleIndex None [0; 1] ∧
    column_names (df_columns out) = ["k"; "a"; "b"] ∧
    ∀ c, c ∈ df_columns out ↔
         c ∈ [("k", [10; 20]); ("b", [1; 2]); ("a", [3; 4])] ∧
         c.1 ∈ ["k"; "a"; "b"].
Proof.
  assert (main_execute registry 2 table_s None None
            (Some (PySeq [RTimestamp 1; RTimestamp 5])) None
          = Ok (VFrame frame_s,
                [EvPreExecute 5; EvComputeTimeContext 5; EvPreExecute 5;
                 EvExecuteNode 5 [VRaw (RClient 0)]; EvPostExecute 5])) as Hrun
    by (vm_compute; reflexivity).
  apply (execute_and_reset_spec registry 2 table_s None None
           (Some (PySeq [RTimestamp 1; RTimestamp 5])) None _ _ Hrun).
  - reflexivity.
  - change (NoDup ["k"; "b"; "a"]).
    apply (bool_decide_unpack (NoDup ["k"; "b"; "a"])). vm_compute. exact I.
  - intros n. change (n ∈ ["k"; "a"; "b"] → n ∈ ["k"; "b"; "a"]).
    rewrite !elem_of_cons. tauto.
Defined.
End ResetRuns.

(** ** Column pruning in the CSV client *)

Lemma length_filter_all {A} (P : A → Prop) `{∀ x, Decision (P x)} (l : list A) :
  length (filter P l) = length l ↔ Forall P l.
Proof.
  induction l as [|x l IH]; simpl; [by split |].
  destruct (decide (P x)) as [Hx | Hx].
  - rewrite filter_cons_True by done. simpl. rewrite Forall_cons.
    split; [intros [= ?]; split; [done | by apply IH] |
            intros [_ ?]; f_equal; by apply IH].
  - rewrite filter_cons_False by done. split.
    + pose proof (length_filter P l). lia.
    + by intros [? _]%Forall_cons.
Qed.

Lemma forallb_bool_decide {A} (P : A → Prop) `{∀ x, Decision (P x)} (l : list A) :
  forallb (λ x, bool_decide (P x)) l = bool_decide (Forall P l).
Proof.
  induction l as [|x l IH].
  - symmetry. apply bool_decide_eq_true_2. constructor.
  - cbn [forallb]. rewrite IH. destruct (decide (P x)) as [Hx | Hx].
    + rewrite (bool_decide_eq_true_2 (P x)) by done. cbn [andb].
      apply bool_decide_ext. rewrite Forall_cons. tauto.
    + rewrite (bool_decide_eq_false_2 (P x)) by done. cbn [andb].
      symmetry. apply bool_decide_eq_false_2. by intros [? _]%Forall_cons.
Qed.

Lemma column_names_filter (cols : list (string * list cell)) (names : list string) d :
  d ∈ column_names (filter (λ c, c.1 ∈ names) cols) ↔
  d ∈ column_names cols ∧ d ∈ names.
Proof.
  unfold column_names. rewrite !list_elem_of_fmap. split.
  - intros ([m v] & -> & [Hm Hin]%list_elem_of_filter). split; [| done].
    by exists (m, v).
  - intros [([m v] & -> & Hin) Hd]. exists (m, v). split; [done |].
    by apply list_elem_of_filter.
Qed.

Section CSVFacts.
Context (client : CSVClient) (sel : Selection).

(** The read of the header: it has the labels of the file, and it needs
    the dates of the schema to be among them. *)
Lemma _read_csv_header path schema cols :
  files client !! path = Some cols →
  Forall (λ d, d ∈ column_names cols) (dates schema) →
  ∃ header, _read_csv client path schema None (Some 1%nat) = Ok header ∧
            column_names (df_columns header) = column_names cols.
Proof.
  intros Hf Hd. unfold _read_csv. rewrite Hf. simpl.
  rewrite forallb_bool_decide, bool_decide_eq_true_2 by done.
  eexists. split; [done |].
  simpl. unfold column_names. rewrite map_map. reflexivity.
Qed.

Lemma _read_csv_header_Err path schema cols :
  files client !! path = Some cols →
  ¬ Forall (λ d, d ∈ column_names cols) (dates schema) →
  ∀ nrows, _read_csv client path schema None nrows = Err ValueError.
Proof.
  intros Hf Hd nrows. unfold _read_csv. rewrite Hf. simpl.
  by rewrite forallb_bool_decide, bool_decide_eq_false_2.
Qed.

Lemma csv_usecols_spec table path cols usecols :
  files client !! path = Some cols →
  Forall (λ d, d ∈ column_names cols) (dates (table_schema table)) →
  selections sel ≠ [] →
  rmap selection_name (selections sel) = Ok usecols →
  csv_usecols client sel table path =
    Ok (if bool_decide (Forall (λ n, n ∈ column_names cols) usecols)
        then Some usecols else None).
Proof.
  intros Hf Hd Hsel Hnames. unfold csv_usecols.
  rewrite bool_decide_eq_false_2 by done.
  destruct (_read_csv_header path _ cols Hf Hd) as (header & -> & Hh). simpl.
  rewrite Hnames. simpl. rewrite Hh. unfold index_intersection.
  case_bool_decide as Hall.
  - apply (proj2 (length_filter_all _ _)) in Hall.
    rewrite Hall, Nat.eqb_refl. reflexivity.
  - destruct (_ =? _)%nat eqn:Heq; [| reflexivity].
    apply Nat.eqb_eq in Heq. apply (proj1 (length_filter_all _ _)) in Heq. done.
Qed.

(** X26. What one turn of the loop of [csv_pre_execute_selection] reads
    for a table of a file the client knows, the selection having
    selections.  The read fails when a timestamp column of the table's
    schema is not in the header; when every requested name is in the
    header, it gives the columns of the file with a requested name, in
    the order of the file, and fails when that leaves out a timestamp
    column of the schema; when a requested name is not in the header,
    it gives the whole file. *)
Theorem csv_table_frame_spec table path cols usecols :
  dictionary client !! table_name table = Some path →
  files client !! path = Some cols →
  selections sel ≠ [] →
  rmap selection_name (selections sel) = Ok usecols →
  let pruned := filter (λ c, c.1 ∈ usecols) cols in
  csv_table_frame client sel table =
    if bool_decide (Forall (λ d, d ∈ column_names cols)
                      (dates (table_schema table))) then
      if bool_decide (Forall (λ n, n ∈ column_names cols) usecols) then
        if bool_decide (Forall (λ d, d ∈ usecols) (dates (table_schema table)))
        then Ok (mkDataFrame (default_index (nrows_of pruned)) pruned)
        else Err ValueError
      else Ok (mkDataFrame (default_index (nrows_of cols)) cols)
    else Err ValueError.
Proof.
  intros Hd Hf Hsel Hnames pruned. unfold csv_table_frame. rewrite Hd.
  case_bool_decide as Hdates.
  2: { unfold csv_usecols. rewrite bool_decide_eq_false_2 by done.
       by rewrite (_read_csv_header_Err path _ cols Hf Hdates). }
  rewrite (csv_usecols_spec table path cols usecols Hf Hdates Hsel Hnames).
  simpl. unfold _read_csv. rewrite Hf.
  case_bool_decide as Hall; simpl.
  - rewrite (forallb_bool_decide (λ n, n ∈ column_names cols)).
    rewrite bool_decide_eq_true_2 by done. simpl.
    rewrite (forallb_bool_decide (λ d, d ∈ column_names pruned)).
    apply (f_equal (λ b : bool, if b then _ else _)).
    apply bool_decide_ext.
    rewrite !Forall_forall. split.
    + intros H d Hdin. by apply (column_names_filter cols usecols d), H.
    + intros H d Hdin. apply column_names_filter. split; [| by apply H].
      by apply (proj1 (Forall_forall _ _) Hdates).
  - rewrite (forallb_bool_decide (λ d, d ∈ column_names cols)).
    by rewrite bool_decide_eq_true_2.
Qed.
End CSVFacts.

Section CSVRuns.
Import Scenario.

(** C10. The file has the header [a, b, c] and the schema of the table
    gives [c] as a timestamp.  A selection of [a] and [b] finds both in
    the header and prunes the read to them, and the read fails: [c] is
    still passed as a column of dates, and it is no longer among the
    columns read.  No scope comes back, whatever [merge_scope] does.
    Under a schema without timestamps the same selection reads [a] and
    [b]. *)
Theorem csv_pruning_drops_a_date_column (updates_receiver : bool) :
  dates (table_schema csv_table_dated) = ["c"] ∧
  csv_usecols csv_client (select_from csv_table_dated ["a"; "b"])
    csv_table_dated "/data/t.csv" = Ok (Some ["a"; "b"]) ∧
  _read_csv csv_client "/data/t.csv" (table_schema csv_table_dated)
    (Some ["a"; "b"]) None = Err ValueError ∧
  csv_pre_execute_selection updates_receiver csv_client
    (select_from csv_table_dated ["a"; "b"]) None ∅ = Err ValueError ∧
  csv_table_frame csv_client (select ["a"; "b"]) csv_table
  = Ok (mkDataFrame (SingleIndex None [0; 1]) [("a", [1; 2]); ("b", [3; 4])]).
Proof.
  split; [reflexivity |]. split; [vm_compute; reflexivity |].
  split; [vm_compute; reflexivity |].
  split; [destruct updates_receiver; vm_compute; reflexivity |].
  vm_compute. reflexivity.
Qed.

Lemma csv_table_frame_spec_witness :
  csv_table_frame csv_client (select ["a"; "b"]) csv_table
  = Ok (mkDataFrame (SingleIndex None [0; 1]) [("a", [1; 2]); ("b", [3; 4])]) ∧
  csv_table_frame csv_client (select ["a"; "z"]) csv_table
  = Ok (mkDataFrame (SingleIndex None [0; 1]) file_abc) ∧
  csv_table_frame csv_client (select_from csv_table_dated ["a"; "b"])
    csv_table_dated = Err ValueError.
Proof.
  split; [| split].
  - rewrite (csv_table_frame_spec csv_client (select ["a"; "b"]) csv_table
               "/data/t.csv" file_abc ["a"; "b"]);
      [vm_compute; reflexivity | vm_compute; reflexivity
      | vm_compute; reflexivity | discriminate | reflexivity].
  - rewrite (csv_table_frame_spec csv_client (select ["a"; "z"]) csv_table
               "/data/t.csv" file_abc ["a"; "z"]);
      [vm_compute; reflexivity | vm_compute; reflexivity
      | vm_compute; reflexivity | discriminate | reflexivity].
  - rewrite (csv_table_frame_spec csv_client
               (select_from csv_table_dated ["a"; "b"]) csv_table_dated
               "/data/t.csv" file_abc ["a"; "b"]);
      [vm_compute; reflexivity | vm_compute; reflexivity
      | vm_compute; reflexivity | discriminate | reflexivity].
Defined.
End CSVRuns.

(** * Further properties of the sources *)

(** ** Time contexts *)

(** X1. Swapping the two ranges turns [SUPERSET] into a [SUBSET] of
    distinct ranges and back, and leaves [NONOVERLAP] and [OVERLAP] as
    they are. *)
Theorem compare_timecontext_swap (a b : TimeContext) :
  (compare_timecontext a b = SUPERSET ↔
   compare_timecontext b a = SUBSET ∧ a ≠ b) ∧
  (compare_timecontext a b = NONOVERLAP ↔ compare_timecontext b a = NONOVERLAP) ∧
  (compare_timecontext a b = OVERLAP ↔ compare_timecontext b a = OVERLAP).
Proof.
  rewrite compare_timecontext_SUPERSET, (compare_timecontext_SUBSET b a),
    !compare_timecontext_OVERLAP.
  destruct a as [ab ae], b as [bb be]; simpl.
  split; [| split].
  - split.
    + intros [[? ?] Hn]. split; [lia |]. intros [= -> ->]. lia.
    + intros [[? ?] Hne]. split; [lia |]. intros [? ?]. apply Hne. f_equal; lia.
  - unfold compare_timecontext.
    destruct (Z.leb_spec bb ab), (Z.geb_spec be ae), (Z.geb_spec bb ab),
      (Z.leb_spec be ae), (Z.ltb_spec be ab), (Z.ltb_spec ae bb),
      (Z.leb_spec ab bb), (Z.geb_spec ae be), (Z.geb_spec ab bb),
      (Z.leb_spec ae be); simpl;
      split; intros; try discriminate; try reflexivity; lia.
  - intuition lia.
Qed.

(** X2. Containment is transitive: a range inside a range that is inside
    a third one is inside the third. *)
Theorem compare_timecontext_SUBSET_trans (a b c : TimeContext) :
  compare_timecontext a b = SUBSET →
  compare_timecontext b c = SUBSET →
  compare_timecontext a c = SUBSET.
Proof. rewrite !compare_timecontext_SUBSET. lia. Qed.

Lemma compare_timecontext_SUBSET_trans_witness :
  compare_timecontext (3, 4) (1, 9) = SUBSET.
Proof.
  apply (compare_timecontext_SUBSET_trans (3, 4) (2, 5) (1, 9)); reflexivity.
Defined.

(** X3. What [canonicalize_context] returns is a time context it accepts
    and returns unchanged. *)
Theorem canonicalize_context_idempotent (timecontext : pyobj) b e :
  canonicalize_context timecontext = Ok (b, e) →
  canonicalize_context (PySeq [RTimestamp b; RTimestamp e]) = Ok (b, e).
Proof.
  intros H. unfold canonicalize_context in *.
  destruct (unpack2 timecontext) as [[x y]|]; [| discriminate].
  destruct (as_Timestamp x) as [tb|]; [| discriminate].
  destruct (as_Timestamp y) as [te|]; [| discriminate].
  simpl. destruct (Z.gtb_spec tb te); [discriminate |].
  injection H as <- <-. destruct (Z.gtb_spec tb te); [lia | reflexivity].
Qed.

Lemma canonicalize_context_idempotent_witness :
  canonicalize_context (PySeq [RTimestamp 1; RTimestamp 5]) = Ok (1, 5).
Proof.
  apply (canonicalize_context_idempotent (PySeq [RTimestamp 1; RTimestamp 5])).
  reflexivity.
Defined.

(** ** Scope *)

Lemma lookup_merge (a b : Scope) (k : key) :
  merge a b !! k = match b !! k with Some e => Some e | None => a !! k end.
Proof.
  unfold merge. rewrite lookup_union.
  destruct (b !! k), (a !! k); reflexivity.
Qed.

Lemma lookup_scope_item (k k' : key) v tc :
  scope_item k v tc !! k' = if decide (k = k') then Some (mkEntry v tc) else None.
Proof.
  unfold scope_item. destruct (decide (k = k')) as [<- | Hne].
  - apply lookup_singleton_eq.
  - by apply lookup_singleton_ne.
Qed.

(** X4. A lookup in a merged scope sees the second scope's entry for the
    operation when it has one, whatever the time contexts of the two
    entries are, and the first scope's entry otherwise. *)
Theorem get_scope_merge (a b : Scope) (o : OpInfo) timecontext :
  get_scope (merge a b) o timecontext =
  match b !! KOp (op_key o) with
  | Some _ => get_scope b o timecontext
  | None => get_scope a o timecontext
  end.
Proof.
  unfold get_scope. rewrite lookup_merge.
  destruct (b !! KOp (op_key o)); reflexivity.
Qed.

(** X5. A value stored for an operation is found again without a time
    context, whatever it was stored under.  With a time context, a table
    or column stored under that same time context is found; any other
    operation is not found, not even under the time context it was stored
    with; a table or column stored without a time context makes the lookup
    fail. *)
Theorem scope_item_then_get_scope (scope : Scope) (o : OpInfo) v tc :
  let stored := merge scope (scope_item (KOp (op_key o)) v tc) in
  get_scope stored o None = Ok v ∧
  (∀ cur, is_TableColumn_or_TableNode (op_class o) = false →
          get_scope stored o (Some cur) = Ok (VRaw RNone)) ∧
  (∀ c, is_TableColumn_or_TableNode (op_class o) = true → tc = Some c →
        get_scope stored o (Some c) = Ok v) ∧
  (∀ cur, is_TableColumn_or_TableNode (op_class o) = true → tc = None →
          get_scope stored o (Some cur) = Err TypeError).
Proof.
  intros stored. subst stored.
  assert (merge scope (scope_item (KOp (op_key o)) v tc) !! KOp (op_key o)
          = Some (mkEntry v tc)) as Hm.
  { rewrite lookup_merge, lookup_scope_item. by rewrite decide_True. }
  unfold get_scope. rewrite Hm. simpl.
  split; [done |]. split; [by intros cur -> |].
  split.
  - intros c -> ->. rewrite bool_decide_eq_true_2; [done |].
    apply compare_timecontext_SUBSET. lia.
  - by intros cur -> ->.
Qed.

(** X6. Merging is not aware of ranges: once an entry with a narrower
    range is merged over a table or column cached under a wider one, a
    request the wider entry served, and the narrower one does not contain,
    misses. *)
Theorem narrower_entry_hides_wider (scope : Scope) (o : OpInfo) wide narrow cur
    v_old v_new :
  is_TableColumn_or_TableNode (op_class o) = true →
  scope !! KOp (op_key o) = Some (mkEntry v_old (Some wide)) →
  compare_timecontext cur wide = SUBSET →
  compare_timecontext cur narrow ≠ SUBSET →
  get_scope scope o (Some cur) = Ok v_old ∧
  get_scope (merge scope (scope_item (KOp (op_key o)) v_new (Some narrow))) o
    (Some cur) = Ok (VRaw RNone).
Proof.
  intros Hleaf Hold Hwide Hnarrow. unfold get_scope.
  rewrite lookup_merge, Hold, lookup_scope_item, decide_True by done.
  rewrite Hleaf. simpl.
  rewrite bool_decide_eq_true_2 by done. by rewrite bool_decide_eq_false_2.
Qed.

Lemma narrower_entry_hides_wider_witness :
  get_scope (scope_item (KOp 3) (VRaw (RInt 1)) (Some (1, 9)))
    (Scenario.info 3 TableNode) (Some (2, 8)) = Ok (VRaw (RInt 1)) ∧
  get_scope
    (merge (scope_item (KOp 3) (VRaw (RInt 1)) (Some (1, 9)))
       (scope_item (KOp 3) (VRaw (RInt 2)) (Some (4, 5))))
    (Scenario.info 3 TableNode) (Some (2, 8)) = Ok (VRaw RNone).
Proof.
  apply (narrower_entry_hides_wider
           (scope_item (KOp 3) (VRaw (RInt 1)) (Some (1, 9)))
           (Scenario.info 3 TableNode) (1, 9) (4, 5) (2, 8)
           (VRaw (RInt 1)) (VRaw (RInt 2))).
  - reflexivity.
  - vm_compute. reflexivity.
  - reflexivity.
  - discriminate.
Defined.

(** ** More on the evaluator *)

Section EvaluatorMore.
Context (R : Registry).
Implicit Types (expr : Expr) (scope : Scope) (timecontext : option TimeContext).
Implicit Types (aggcontext : AggregationContext) (clients : list nat).
Implicit Types (post : Expr → value → option TimeContext → result value).

Lemma get_scope_no_timecontext_Ok scope (o : OpInfo) :
  ∃ v, get_scope scope o None = Ok v.
Proof. unfold get_scope. destruct (scope !! _); eauto. Qed.

(** Where a failure comes from, with what it takes: the comparison of
    ranges and the length check happen only under a time context, and
    the length check fails only on a list of the wrong length. *)
Lemma execute_until_in_scope_failure fuel :
  ∀ expr scope timecontext aggcontext clients post e,
    execute_until_in_scope R fuel expr scope timecontext aggcontext clients
      post = Err e →
    raised_by_hook R post e ∨
    (e = TypeError ∧ timecontext ≠ None) ∨
    (e = IbisError_arg_timecontexts_differ ∧ timecontext ≠ None ∧
     ¬ well_sized R) ∨
    (e = RecursionDepthExceeded ∧ (fuel < depth expr)%nat).
Proof.
  induction fuel as [|fuel IH]; intros expr scope timecontext aggcontext
    clients post e H.
  { injection H as <-. do 3 right. split; [done |]. destruct expr; simpl; lia. }
  cbn [execute_until_in_scope] in H.
  set (args := filter is_computable_input (inputs expr)) in *.
  assert (∀ s, get_scope s (op expr) timecontext = Err e →
               e = TypeError ∧ timecontext ≠ None) as Hget.
  { intros s Hs. split; [by eapply get_scope_Err |].
    intros ->. destruct (get_scope_no_timecontext_Ok s (op expr)) as [v Hv].
    congruence. }
  case_bool_decide as Hlit.
  { apply bind_Err in H as [H%call_Err | (v & tr & _ & H)]; [| discriminate].
    left. left. eauto. }
  apply bind_Err in H as [H%lift_Err%Hget | (cached & t1 & _ & H)];
    [by right; left |].
  destruct (is_None cached); simpl in H; [| discriminate].
  apply bind_Err in H as [H | (tcs & t2 & Htcs & H)].
  { destruct timecontext as [tc|]; [| discriminate].
    apply call_Err in H. left. do 4 right. eauto. }
  apply bind_Err in H as [H%call_Err | (pre & t3 & _ & H)].
  { left. right; right; left. eauto 10. }
  apply bind_Err in H as [H%lift_Err%Hget | (cached' & t4 & _ & H)];
    [by right; left |].
  destruct (is_None cached'); simpl in H; [| discriminate].
  destruct (length tcs =? length args)%nat eqn:Hlen; simpl in H.
  2: { injection H as <-. right; right; left. split; [done |].
       apply Nat.eqb_neq in Hlen.
       destruct timecontext as [tc|].
       - apply call_Ok in Htcs as [Htcs _]. split; [done |].
         intros Hws. apply Hlen. by eapply Hws.
       - injection Htcs as <- _. by rewrite length_replicate in Hlen. }
  apply Nat.eqb_eq in Hlen.
  apply bind_Err in H as [H | (scopes & t5 & Hfor & H)].
  { apply for_each_Err in H as ([arg tc] & Hin & H).
    destruct arg as [a | r]; [| discriminate].
    assert (tc ≠ None → timecontext ≠ None) as Htc.
    { intros Hne ->. injection Htcs as <- _.
      apply elem_of_zip_r in Hin. simpl in Hin.
      by apply elem_of_replicate in Hin as [? _]. }
    apply IH in H as [H | [[-> H] | [(-> & H & Hws) | [-> Hd]]]]; auto.
    - right; right; left. auto.
    - do 3 right. split; [done |].
      apply elem_of_zip_l in Hin. simpl in Hin.
      assert (InExpr a ∈ inputs expr) as Ha%depth_input.
      { by apply list_elem_of_filter in Hin as [_ ?]. }
      lia. }
  apply for_each_length in Hfor. rewrite length_zip, Hlen in Hfor.
  assert ((length args =? length scopes)%nat = true) as Hassert.
  { apply Nat.eqb_eq. lia. }
  destruct (bool_decide (scopes = []) && negb (bool_decide (args = []))) eqn:Hg.
  { apply andb_true_iff in Hg as [Hs%bool_decide_eq_true Ha%negb_true_iff].
    apply bool_decide_eq_false in Ha. subst scopes. simpl in Hfor.
    destruct args; [done | simpl in Hfor; lia]. }
  rewrite Hassert in H. simpl in H.
  rewrite for_each_realized in H. simpl in H.
  destruct (execute_node R expr _ scope timecontext aggcontext clients)
    as [res|] eqn:Hexec; simpl in H.
  - destruct (post expr res timecontext) eqn:Hpost; simpl in H;
      [discriminate |]. injection H as <-. left. do 3 right. left. eauto.
  - injection H as <-. left. right; left. eauto 10.
Qed.

(** X7. Without a time context, an evaluation whose dispatched
    implementations all succeed returns a scope: the recursion ends
    within the depth of the expression, and neither the comparison of
    ranges nor the length check can fail. *)
Theorem evaluation_succeeds_without_timecontext fuel expr scope aggcontext
    clients post :
  hooks_never_fail R post →
  (depth expr ≤ fuel)%nat →
  ∃ s tr,
    execute_until_in_scope R fuel expr scope None aggcontext clients post
    = Ok (s, tr).
Proof.
  intros Hh Hd.
  destruct (execute_until_in_scope R fuel expr scope None aggcontext clients
              post) as [[s tr]|e] eqn:H; [eauto |].
  apply execute_until_in_scope_failure in H
    as [H | [[_ H] | [(_ & H & _) | [_ H]]]];
    [by apply Hh in H | done | done | lia].
Qed.

(** X8. A failure that no dispatched implementation returned, in an
    evaluation deep enough for the expression, is the failed comparison
    with an entry that has no time context or the length error, and the
    evaluation was given a time context. *)
Theorem own_failures_need_timecontext fuel expr scope timecontext aggcontext
    clients post e :
  execute_until_in_scope R fuel expr scope timecontext aggcontext clients post
    = Err e →
  ¬ raised_by_hook R post e →
  (depth expr ≤ fuel)%nat →
  timecontext ≠ None ∧ (e = TypeError ∨ e = IbisError_arg_timecontexts_differ).
Proof.
  intros H Hh Hd.
  apply execute_until_in_scope_failure in H
    as [H | [[-> H] | [(-> & H & _) | [_ H]]]]; [done | auto | auto | lia].
Qed.

(** X9. When every [compute_time_context] implementation returns one
    range per computable input, as the default does, no evaluation ends
    with the length error. *)
Theorem well_sized_never_length_error fuel expr scope timecontext aggcontext
    clients post :
  well_sized R →
  ¬ raised_by_hook R post IbisError_arg_timecontexts_differ →
  execute_until_in_scope R fuel expr scope timecontext aggcontext clients post
    ≠ Err IbisError_arg_timecontexts_differ.
Proof.
  intros Hws Hh H.
  apply execute_until_in_scope_failure in H
    as [H | [[H _] | [(_ & _ & H) | [H _]]]]; [done | discriminate | done |
                                                discriminate].
Qed.

(** A successful run leaves an entry for the operation in the scope it
    returns. *)
Lemma result_entry fuel expr scope timecontext aggcontext clients post s tr :
  execute_until_in_scope R fuel expr scope timecontext aggcontext clients post
    = Ok (s, tr) →
  ∃ entry, s !! KOp (op_key (op expr)) = Some entry.
Proof.
  destruct fuel as [|fuel]; [discriminate |]. intros H.
  destruct (decide (op_class (op expr) = Literal)) as [Hlit | Hlit].
  - cbn [execute_until_in_scope] in H.
    rewrite bool_decide_eq_true_2 in H by done.
    apply bind_Ok in H as (v & t1 & t2 & _ & [= <- _] & _).
    rewrite lookup_scope_item, decide_True by done. eauto.
  - apply execute_until_in_scope_inv in H as
      [(v & Hget & Hv & -> & _) |
       [(tcs & tr0 & pre & v & _ & _ & _ & Hget & Hv & -> & _) |
        (tcs & tr0 & pre & rs & res & computed & _ & _ & _ & _ & _ & _ & _ &
         _ & -> & _)]]; [| | | done].
    + destruct (get_scope_hit _ _ _ _ Hget Hv) as (entry & ? & _). eauto.
    + destruct (get_scope_hit _ _ _ _ Hget Hv) as (entry & ? & _). eauto.
    + rewrite lookup_scope_item, decide_True by done. eauto.
Qed.

(** X10. A literal is computed by [execute_literal] alone, whatever the
    scope holds for it: [execute_with_scope] returns the value of
    [execute_literal] after the root [pre_execute], and calls nothing
    else. *)
Theorem literal_recomputed_whatever_scope fuel expr scope timecontext
    (agg : option AggregationContext) (cl : option (list nat)) pre v :
  op_class (op expr) = Literal →
  pre_execute R expr (default (find_backends R expr) cl) scope timecontext
    (default Summarize agg) = Ok pre →
  execute_literal R (op expr) (op_value (op expr)) (expr_type (op expr))
    (default Summarize agg) = Ok v →
  execute_with_scope R (S fuel) expr scope timecontext agg cl
  = Ok (v, [EvPreExecute (op_key (op expr));
            EvExecuteLiteral (op_key (op expr))]).
Proof.
  intros Hlit Hpre Hex. unfold execute_with_scope.
  rewrite Hpre. cbn [execute_until_in_scope call bind].
  rewrite bool_decide_eq_true_2 by done. rewrite Hex. simpl.
  rewrite lookup_scope_item, decide_True by done. reflexivity.
Qed.

(** X11. When [pre_execute] puts the node in scope, the evaluation
    returns the merged scope right after it: no input is evaluated and
    [execute_node] and [post_execute] are not called, whatever the list
    of child ranges is. *)
Theorem pre_execute_short_circuit fuel expr scope timecontext aggcontext
    clients post tcs tr0 pre v :
  op_class (op expr) ≠ Literal →
  get_scope scope (op expr) timecontext = Ok (VRaw RNone) →
  arg_timecontexts_are R expr timecontext tcs tr0 →
  pre_execute R expr clients scope timecontext aggcontext = Ok pre →
  get_scope (merge scope pre) (op expr) timecontext = Ok v →
  is_None v = false →
  execute_until_in_scope R (S fuel) expr scope timecontext aggcontext clients
    post = Ok (merge scope pre, tr0 ++ [EvPreExecute (op_key (op expr))]).
Proof.
  intros Hlit Hget Hare Hpre Hget' Hv. cbn [execute_until_in_scope].
  rewrite bool_decide_eq_false_2 by done. rewrite Hget. simpl.
  unfold arg_timecontexts_are in Hare.
  destruct timecontext as [tc|]; destruct Hare as [Htcs ->].
  - rewrite Htcs. simpl. rewrite Hpre. simpl. rewrite Hget'. simpl.
    rewrite Hv. reflexivity.
  - simpl. rewrite Hpre. simpl. rewrite Hget'. simpl. rewrite Hv. reflexivity.
Qed.

(** X12. A run that called [execute_node] for its node returns a scope
    with one entry only, the node's, labelled with the time context of
    the call: the scope it was given and the entries of the inputs are
    not in it. *)
Theorem computed_scope_is_one_entry fuel expr scope timecontext aggcontext
    clients post s tr :
  execute_until_in_scope R (S fuel) expr scope timecontext aggcontext clients
    post = Ok (s, tr) →
  op_class (op expr) ≠ Literal →
  calls_execute_node tr = true →
  ∃ computed, s = scope_item (KOp (op_key (op expr))) computed timecontext.
Proof.
  intros H Hlit Hcalls.
  apply execute_until_in_scope_inv in H as
    [(v & _ & _ & _ & ->) |
     [(tcs & tr0 & pre & v & _ & Hare & _ & _ & _ & _ & ->) |
      (tcs & tr0 & pre & rs & res & computed & _ & _ & _ & _ & _ & _ & _ &
       _ & -> & _)]]; [discriminate | | eauto | done].
  rewrite calls_execute_node_app, (arg_timecontexts_log _ _ _ _ _ Hare) in Hcalls.
  discriminate.
Qed.

(** X13. The indexing that ends [execute_with_scope] never fails: when
    the root [pre_execute] and the evaluation succeed, the result is the
    value of the entry the evaluation left for the root. *)
Theorem execute_with_scope_returns_root_entry fuel expr scope timecontext
    (agg : option AggregationContext) (cl : option (list nat)) pre s tr :
  pre_execute R expr (default (find_backends R expr) cl) scope timecontext
    (default Summarize agg) = Ok pre →
  execute_until_in_scope R fuel expr (merge scope pre) timecontext
    (default Summarize agg) (default (find_backends R expr) cl)
    (λ e r tc, post_execute R e r scope tc (default Summarize agg)
                 (default (find_backends R expr) cl)) = Ok (s, tr) →
  ∃ entry,
    s !! KOp (op_key (op expr)) = Some entry ∧
    execute_with_scope R fuel expr scope timecontext agg cl
    = Ok (entry_value entry, EvPreExecute (op_key (op expr)) :: tr).
Proof.
  intros Hpre Hrun.
  destruct (result_entry _ _ _ _ _ _ _ _ _ Hrun) as [entry Hentry].
  exists entry. split; [done |]. unfold execute_with_scope.
  rewrite Hpre. simpl call. unfold bind at 1. unfold bind at 1.
  rewrite Hrun, Hentry. simpl. by rewrite app_nil_r.
Qed.

(** X14. Without a time context the memo works: once the scope an
    evaluation returned is merged into the scope, evaluating the node
    again is a hit that calls nothing, provided the value the evaluation
    left for the node is not [None]. *)
Theorem reevaluation_is_a_hit fuel expr scope aggcontext clients post s tr :
  execute_until_in_scope R fuel expr scope None aggcontext clients post
    = Ok (s, tr) →
  op_class (op expr) ≠ Literal →
  ∃ entry,
    s !! KOp (op_key (op expr)) = Some entry ∧
    (is_None (entry_value entry) = false →
     ∀ fuel',
       execute_until_in_scope R (S fuel') expr (merge scope s) None aggcontext
         clients post = Ok (merge scope s, [])).
Proof.
  intros Hrun Hlit.
  destruct (result_entry _ _ _ _ _ _ _ _ _ Hrun) as [entry Hentry].
  exists entry. split; [done |]. intros Hv fuel'.
  apply (execute_until_in_scope_hit R fuel' expr (merge scope s) None
           aggcontext clients post (entry_value entry) Hlit); [| done].
  unfold get_scope. by rewrite lookup_merge, Hentry.
Qed.

(** X15. Under a time context an operation that is neither a table nor
    a column is never taken from the scope: every successful evaluation
    of it asks for the child ranges, runs [pre_execute], cannot be
    short-circuited by it, and ends with [execute_node] and
    [post_execute] for the operation. *)
Theorem value_op_always_computed_under_timecontext fuel expr scope tc
    aggcontext clients post s tr :
  execute_until_in_scope R (S fuel) expr scope (Some tc) aggcontext clients
    post = Ok (s, tr) →
  op_class (op expr) ≠ Literal →
  is_TableColumn_or_TableNode (op_class (op expr)) = false →
  ∃ tr1 data computed,
    tr = [EvComputeTimeContext (op_key (op expr));
          EvPreExecute (op_key (op expr))] ++ tr1 ++
         [EvExecuteNode (op_key (op expr)) data;
          EvPostExecute (op_key (op expr))] ∧
    s = scope_item (KOp (op_key (op expr))) computed (Some tc).
Proof.
  intros H Hlit Hleaf.
  assert (∀ sc v, get_scope sc (op expr) (Some tc) = Ok v → is_None v = true)
    as Hmiss.
  { intros sc v. unfold get_scope. rewrite Hleaf.
    destruct (sc !! _); by intros [= <-]. }
  apply execute_until_in_scope_inv in H as
    [(v & Hget & Hv & _) |
     [(tcs & tr0 & pre & v & _ & _ & _ & Hget & Hv & _) |
      (tcs & tr0 & pre & rs & res & computed & _ & [_ ->] & _ & _ & _ & _ &
       _ & _ & -> & ->)]]; [| | | done].
  - apply Hmiss in Hget. congruence.
  - apply Hmiss in Hget. congruence.
  - eexists (concat (map snd rs)), _, computed. split; reflexivity.
Qed.

(** The scope [main_execute] makes of the parameters holds, for a key,
    the value of the last parameter with that key. *)
Lemma params_scope_other (qs : list (Input * value)) k tc :
  Forall (λ q, param_key q.1 ≠ k) qs →
  ∀ acc,
    foldl (λ acc kv, merge acc (scope_item (param_key kv.1) kv.2 tc)) acc qs
      !! k = acc !! k.
Proof.
  induction 1 as [|q qs Hq _ IH]; intros acc; simpl; [done |].
  rewrite IH, lookup_merge, lookup_scope_item.
  by rewrite decide_False.
Qed.

Lemma params_scope_last (ps qs : list (Input * value)) p v tc :
  Forall (λ q, param_key q.1 ≠ param_key p) qs →
  foldl (λ acc kv, merge acc (scope_item (param_key kv.1) kv.2 tc)) ∅
    (ps ++ (p, v) :: qs) !! param_key p = Some (mkEntry v tc).
Proof.
  intros Hqs. rewrite foldl_app. simpl.
  rewrite (params_scope_other qs _ tc Hqs).
  rewrite lookup_merge, lookup_scope_item.
  by rewrite decide_True.
Qed.

(** X16. Without a time context, an expression that the parameters bind
    to a value evaluates to that value, the one of the last binding of
    its operation, wherever that binding stands among the parameters
    and whatever the seed scope holds for it, and [execute_node] is not
    called, provided [pre_execute] does not supply the node itself. *)
Theorem bound_parameter_is_the_result fuel expr ps p v qs
    (seed : option Scope) (agg : option AggregationContext) :
  op_class (op expr) ≠ Literal →
  is_None v = false →
  param_key p = KOp (op_key (op expr)) →
  Forall (λ q, param_key q.1 ≠ KOp (op_key (op expr))) qs →
  (∀ sc, ∃ pre,
     pre_execute R expr (find_backends R expr) sc None
       (default Summarize agg) = Ok pre ∧
     pre !! KOp (op_key (op expr)) = None) →
  main_execute R (S fuel) expr (Some (ps ++ (p, v) :: qs)) seed None agg
  = Ok (v, [EvPreExecute (op_key (op expr))]).
Proof.
  intros Hlit Hv Hp Hqs Hpre. unfold main_execute. simpl default.
  cbn [ret bind]. set (new_scope := merge _ _).
  destruct (Hpre new_scope) as (pre & Hpe & Hnone).
  rewrite (execute_with_scope_memo_hit R fuel expr new_scope None agg
             None pre v Hlit Hpe); [reflexivity | | done].
  unfold get_scope. rewrite lookup_merge, Hnone. subst new_scope.
  rewrite lookup_merge.
  rewrite <- Hp in Hqs.
  pose proof (params_scope_last ps qs p v None Hqs) as Hl.
  rewrite Hp in Hl. by rewrite Hl.
Qed.

(** X17. A malformed time context stops [execute] and
    [execute_and_reset] before anything is evaluated: they fail with the
    error of [canonicalize_context], whatever the expression, the
    registry and the depth. *)
Theorem malformed_timecontext_is_fatal fuel expr params (seed : option Scope)
    o (agg : option AggregationContext) e :
  canonicalize_context o = Err e →
  main_execute R fuel expr params seed (Some o) agg = Err e ∧
  execute_and_reset R fuel expr params seed (Some o) agg = Err e.
Proof.
  intros H. unfold execute_and_reset, main_execute. rewrite H. done.
Qed.
End EvaluatorMore.

(** ** More runs on concrete inputs *)

Section MoreRuns.
Import Scenario.

Lemma registry_never_fails scope e :
  ¬ raised_by_hook registry (post_ registry scope) e.
Proof.
  unfold raised_by_hook, registry, post_; simpl.
  intros [(o & v & d & a & H) | [(x & data & s & tc & a & c & H) |
          [(x & c & s & tc & a & H) | [(x & v & tc & H) | (x & n & tc & H)]]]];
    try discriminate.
  repeat case_match; discriminate.
Qed.

Lemma registry_short_never_fails scope e :
  ¬ raised_by_hook registry_short (post_ registry_short scope) e.
Proof.
  unfold raised_by_hook, registry_short, registry, post_; simpl.
  intros [(o & v & d & a & H) | [(x & data & s & tc & a & c & H) |
          [(x & c & s & tc & a & H) | [(x & v & tc & H) | (x & n & tc & H)]]]];
    try discriminate.
  repeat case_match; discriminate.
Qed.

Lemma registry_well_sized : well_sized registry.
Proof.
  intros x tc tcs [= <-]. unfold compute_time_context_default.
  by rewrite length_map.
Qed.

Lemma evaluation_succeeds_without_timecontext_witness :
  ∃ s tr,
    execute_until_in_scope registry 2 x_plus_x ∅ None Summarize [0%nat]
      (post_ registry ∅) = Ok (s, tr).
Proof.
  apply (evaluation_succeeds_without_timecontext registry 2 x_plus_x ∅
           Summarize [0%nat] (post_ registry ∅)).
  - intros e. apply registry_never_fails.
  - vm_compute. lia.
Defined.

Lemma own_failures_need_timecontext_witness :
  execute_until_in_scope registry_short 1 table_t ∅ (Some (1, 5)) Summarize
    [0%nat] (post_ registry_short ∅) = Err IbisError_arg_timecontexts_differ ∧
  Some (1, 5) ≠ (None : option TimeContext) ∧
  (IbisError_arg_timecontexts_differ = TypeError ∨
   IbisError_arg_timecontexts_differ = IbisError_arg_timecontexts_differ).
Proof.
  assert (execute_until_in_scope registry_short 1 table_t ∅ (Some (1, 5))
            Summarize [0%nat] (post_ registry_short ∅)
          = Err IbisError_arg_timecontexts_differ) as Hrun
    by (vm_compute; reflexivity).
  split; [exact Hrun |].
  apply (own_failures_need_timecontext registry_short 1 table_t ∅
           (Some (1, 5)) Summarize [0%nat] (post_ registry_short ∅) _ Hrun).
  - apply registry_short_never_fails.
  - vm_compute. lia.
Defined.

Lemma well_sized_never_length_error_witness :
  execute_until_in_scope registry 2 neg_x ∅ (Some (1, 5)) Summarize [0%nat]
    (post_ registry ∅) ≠ Err IbisError_arg_timecontexts_differ.
Proof.
  apply (well_sized_never_length_error registry 2 neg_x ∅ (Some (1, 5))
           Summarize [0%nat] (post_ registry ∅)).
  - apply registry_well_sized.
  - apply registry_never_fails.
Defined.

Lemma literal_recomputed_whatever_scope_witness :
  execute_with_scope registry 1 (mkExpr (mkOpInfo 7 Literal (RInt 5) 0 []) [])
    (scope_item (KOp 7) (VRaw (RInt 99)) None) None None None
  = Ok (VRaw (RInt 5), [EvPreExecute 7; EvExecuteLiteral 7]).
Proof.
  apply (literal_recomputed_whatever_scope registry 0
           (mkExpr (mkOpInfo 7 Literal (RInt 5) 0 []) [])
           (scope_item (KOp 7) (VRaw (RInt 99)) None) None None None ∅);
    reflexivity.
Defined.

Lemma pre_execute_short_circuit_witness :
  execute_until_in_scope registry_arity 1 table_t ∅ (Some (1, 5)) Summarize
    [0%nat] (post_ registry_arity ∅)
  = Ok (merge ∅ (scope_item (KOp 3) (VFrame frame_t) (Some (1, 5))),
        [EvComputeTimeContext 3] ++ [EvPreExecute 3]).
Proof.
  apply (pre_execute_short_circuit registry_arity 0 table_t ∅ (Some (1, 5))
           Summarize [0%nat] (post_ registry_arity ∅) []
           [EvComputeTimeContext 3]
           (scope_item (KOp 3) (VFrame frame_t) (Some (1, 5)))
           (VFrame frame_t)).
  - discriminate.
  - reflexivity.
  - split; reflexivity.
  - reflexivity.
  - vm_compute. reflexivity.
  - reflexivity.
Defined.

Lemma neg_x_run :
  execute_until_in_scope registry 2 neg_x ∅ None Summarize [0%nat]
    (post_ registry ∅)
  = Ok (scope_item (KOp 4) (VRaw (RInt 42)) None,
        [EvPreExecute 4; EvPreExecute 2; EvExecuteNode 2 []; EvPostExecute 2;
         EvExecuteNode 4 [VRaw (RInt 42)]; EvPostExecute 4]).
Proof. vm_compute. reflexivity. Qed.

Lemma computed_scope_is_one_entry_witness :
  ∃ computed,
    scope_item (KOp 4) (VRaw (RInt 42)) None
    = scope_item (KOp (op_key (op neg_x))) computed None.
Proof.
  apply (computed_scope_is_one_entry registry 1 neg_x ∅ None Summarize
           [0%nat] (post_ registry ∅) _ _ neg_x_run).
  - discriminate.
  - reflexivity.
Defined.

Lemma execute_with_scope_returns_root_entry_witness :
  ∃ entry,
    scope_item (KOp 4) (VRaw (RInt 42)) None !! KOp 4 = Some entry ∧
    execute_with_scope registry 2 neg_x ∅ None None (Some [0%nat])
    = Ok (entry_value entry,
          [EvPreExecute 4; EvPreExecute 4; EvPreExecute 2; EvExecuteNode 2 [];
           EvPostExecute 2; EvExecuteNode 4 [VRaw (RInt 42)]; EvPostExecute 4]).
Proof.
  apply (execute_with_scope_returns_root_entry registry 2 neg_x ∅ None None
           (Some [0%nat]) ∅).
  - reflexivity.
  - vm_compute. reflexivity.
Defined.

Lemma reevaluation_is_a_hit_witness :
  ∃ entry,
    scope_item (KOp 4) (VRaw (RInt 42)) None !! KOp (op_key (op neg_x))
    = Some entry ∧
    (is_None (entry_value entry) = false →
     ∀ fuel',
       execute_until_in_scope registry (S fuel') neg_x
         (merge ∅ (scope_item (KOp 4) (VRaw (RInt 42)) None)) None Summarize
         [0%nat] (post_ registry ∅)
       = Ok (merge ∅ (scope_item (KOp 4) (VRaw (RInt 42)) None), [])).
Proof.
  apply (reevaluation_is_a_hit registry 2 neg_x ∅ Summarize [0%nat]
           (post_ registry ∅) _ _ neg_x_run).
  discriminate.
Defined.

Lemma value_op_always_computed_under_timecontext_witness :
  ∃ tr1 data computed,
    [EvComputeTimeContext 4; EvPreExecute 4; EvComputeTimeContext 2;
     EvPreExecute 2; EvExecuteNode 2 []; EvPostExecute 2;
     EvExecuteNode 4 [VRaw (RInt 42)]; EvPostExecute 4]
    = [EvComputeTimeContext (op_key (op neg_x));
       EvPreExecute (op_key (op neg_x))] ++ tr1 ++
      [EvExecuteNode (op_key (op neg_x)) data;
       EvPostExecute (op_key (op neg_x))] ∧
    scope_item (KOp 4) (VRaw (RInt 42)) (Some (1, 5))
    = scope_item (KOp (op_key (op neg_x))) computed (Some (1, 5)).
Proof.
  apply (value_op_always_computed_under_timecontext registry 1 neg_x ∅ (1, 5)
           Summarize [0%nat] (post_ registry ∅)).
  - vm_compute. reflexivity.
  - discriminate.
  - reflexivity.
Defined.

Lemma bound_parameter_is_the_result_witness :
  main_execute registry 1 neg_x
    (Some ([(InExpr neg_x, VRaw (RInt 1))] ++
           (InExpr neg_x, VRaw (RInt 7)) ::
           [(InExpr leaf_x, VRaw (RInt 3)); (InRaw (RStr "y"), VRaw (RInt 4))]))
    (Some (scope_item (KOp 4) (VRaw (RInt 0)) None)) None None
  = Ok (VRaw (RInt 7), [EvPreExecute 4]).
Proof.
  apply (bound_parameter_is_the_result registry 0 neg_x
           [(InExpr neg_x, VRaw (RInt 1))] (InExpr neg_x) (VRaw (RInt 7))
           [(InExpr leaf_x, VRaw (RInt 3)); (InRaw (RStr "y"), VRaw (RInt 4))]).
  - discriminate.
  - reflexivity.
  - reflexivity.
  - repeat constructor; discriminate.
  - intros sc. exists ∅. split; reflexivity.
Defined.

Lemma malformed_timecontext_is_fatal_witness :
  main_execute registry 0 neg_x None None
    (Some (PySeq [RTimestamp 5; RTimestamp 1])) None
  = Err IbisError_begin_after_end ∧
  execute_and_reset registry 0 neg_x None None
    (Some (PySeq [RTimestamp 5; RTimestamp 1])) None
  = Err IbisError_begin_after_end.
Proof.
  apply (malformed_timecontext_is_fatal registry 0 neg_x None None
           (PySeq [RTimestamp 5; RTimestamp 1]) None).
  reflexivity.
Defined.
End MoreRuns.
(** ** Filtering a Spark frame by time context *)





Lemma within_spec (tc : TimeContext) (i : nat) (row : list cell) :
  within tc i row = true ↔
  ∃ t, row !! i = Some t ∧ tc.1 `div` 1000 <= t ∧ t < tc.2 `div` 1000.
Proof.
  unfold within, literal. destruct (row !! i) as [t|].
  - rewrite andb_true_iff, Z.leb_le, Z.ltb_lt. split.
    + intros [? ?]. eauto.
    + intros (t' & [= <-] & ? & ?). done.
  - split; [discriminate | by intros (t & ? & _)].
Qed.



(** X19. Filtering by a range what was filtered by a range that contains
    it gives what filtering the frame itself by the narrower range gives:
    data kept for a wider time context can be trimmed to a narrower one. *)
Theorem filter_by_time_context_nested (resolver : Resolver) (df d1 : SparkFrame)
    (cur old : TimeContext) :
  compare_timecontext cur old = SUBSET →
  filter_by_time_context resolver df (Some old) = SparkOk d1 →
  filter_by_time_context resolver d1 (Some cur)
  = filter_by_time_context resolver df (Some cur).
Proof.
  intros Hsub%compare_timecontext_SUBSET. unfold filter_by_time_context.
  case_bool_decide as Hin; [| discriminate].
  destruct (candidates resolver df) as [|i [|? ?]] eqn:Hc; try discriminate.
  intros [= <-]. simpl.
  rewrite bool_decide_eq_true_2 by done.
  change (candidates resolver {| sf_columns := sf_columns df; sf_rows := _ |})
    with (candidates resolver df).
  rewrite Hc. f_equal. f_equal.
  rewrite list_filter_filter. apply list_filter_iff. intros row.
  rewrite !within_spec. split; [tauto |].
  intros (t & Ht & Hb & He). split; [eauto |]. exists t. split; [done |].
  destruct Hsub as [Hb' He'].
  pose proof (Z.div_le_mono old.1 cur.1 1000 ltac:(lia) Hb').
  pose proof (Z.div_le_mono cur.2 old.2 1000 ltac:(lia) ltac:(lia)).
  lia.
Qed.

Lemma filter_by_time_context_nested_witness :
  filter_by_time_context caseInsensitiveResolution
    (mkSparkFrame ["time"; "v"] [[2; 20]; [3; 30]; [4; 40]]) (Some (3000, 4000))
  = filter_by_time_context caseInsensitiveResolution
      (mkSparkFrame ["time"; "v"] [[1; 10]; [2; 20]; [3; 30]; [4; 40]; [5; 50]])
      (Some (3000, 4000)).
Proof.
  apply (filter_by_time_context_nested _ _ _ (3000, 4000) (2000, 5000)).
  - reflexivity.
  - vm_compute. reflexivity.
Defined.

(** ** More on the CSV client *)

Section CSVMore.
Context (updates_receiver : bool) (client : CSVClient) (sel : Selection)
        (timecontext : option TimeContext).

Lemma csv_loop_entries tables :
  ∀ ops0 ops,
    csv_loop updates_receiver client sel timecontext tables ops0 = Ok ops →
    ∀ k entry, ops !! k = Some entry →
      ops0 !! k = Some entry ∨
      ∃ t df, t ∈ tables ∧ k = KOp (table_key t) ∧
              csv_table_frame client sel t = Ok df ∧
              entry = mkEntry (VFrame df) timecontext.
Proof.
  induction tables as [|t0 tables IH]; simpl; intros ops0 ops H k entry Hk.
  { injection H as <-. by left. }
  destruct (csv_table_frame client sel t0) as [df0|] eqn:Hf0;
    simpl in H; [| discriminate].
  destruct (IH _ _ H k entry Hk) as [Hprev | (t & df & Hin & -> & Hf & ->)].
  - unfold after_merge_scope, merge_scope in Hprev.
    destruct updates_receiver; [| by left].
    rewrite lookup_merge, lookup_scope_item in Hprev.
    destruct (decide (KOp (table_key t0) = k)) as [<- | Hne].
    + injection Hprev as <-. right. exists t0, df0.
      split; [left | done].
    + by left.
  - right. exists t, df. split; [by right | done].
Qed.

Lemma csv_loop_Err tables :
  ∀ ops0 e,
    csv_loop updates_receiver client sel timecontext tables ops0 = Err e →
    ∃ t, t ∈ tables ∧ csv_table_frame client sel t = Err e.
Proof.
  induction tables as [|t0 tables IH]; simpl; intros ops0 e H; [discriminate |].
  destruct (csv_table_frame client sel t0) as [df0|] eqn:Hf0; simpl in H.
  - destruct (IH _ _ H) as (t & ? & ?). exists t. split; [by right | done].
  - injection H as <-. exists t0. split; [left | done].
Qed.

Lemma csv_loop_Ok_all tables :
  ∀ ops0 ops,
    csv_loop updates_receiver client sel timecontext tables ops0 = Ok ops →
    ∀ t, t ∈ tables → is_Ok (csv_table_frame client sel t) = true.
Proof.
  induction tables as [|t0 tables IH]; simpl; intros ops0 ops H t Hin.
  { by apply elem_of_nil in Hin. }
  destruct (csv_table_frame client sel t0) as [df0|] eqn:Hf0;
    simpl in H; [| discriminate].
  apply elem_of_cons in Hin as [-> | Hin]; [by rewrite Hf0 | eauto].
Qed.

(** X20. What [csv_pre_execute_selection] returns holds entries for
    physical tables of the selection that are not in scope, and nothing
    else: each entry is the frame read for such a table, under the time
    context of the call. *)
Theorem csv_entries_are_tables_not_in_scope scope ops k entry :
  csv_pre_execute_selection updates_receiver client sel timecontext scope
  = Ok ops →
  ops !! k = Some entry →
  ∃ t df,
    t ∈ physical_tables sel ∧ k = KOp (table_key t) ∧ scope !! k = None ∧
    csv_table_frame client sel t = Ok df ∧
    entry = mkEntry (VFrame df) timecontext.
Proof.
  unfold csv_pre_execute_selection. intros H Hk.
  destruct (csv_loop_entries _ _ _ H k entry Hk)
    as [Hempty | (t & df & [Hs Hin]%list_elem_of_filter & -> & Hf & ->)].
  - by rewrite lookup_empty in Hempty.
  - exists t, df. done.
Qed.

(** X21. [csv_pre_execute_selection] returns no partial scope: it fails
    as soon as a table that is not in scope cannot be read, with the
    error of such a table, and a table the client has no path for is a
    [KeyError]. *)
Theorem csv_failure_is_a_table_failure scope :
  (∀ e, csv_pre_execute_selection updates_receiver client sel timecontext scope
        = Err e →
        ∃ t, t ∈ physical_tables sel ∧ scope !! KOp (table_key t) = None ∧
             csv_table_frame client sel t = Err e) ∧
  (∀ t, t ∈ physical_tables sel → scope !! KOp (table_key t) = None →
        is_Ok (csv_table_frame client sel t) = false →
        is_Ok (csv_pre_execute_selection updates_receiver client sel
                 timecontext scope) = false) ∧
  (∀ t, dictionary client !! table_name t = None →
        csv_table_frame client sel t = Err KeyError).
Proof.
  unfold csv_pre_execute_selection. split; [| split].
  - intros e H. apply csv_loop_Err in H as (t & [? ?]%list_elem_of_filter & ?).
    eauto.
  - intros t Hin Hs Hfail.
    destruct (csv_loop _ _ _ _ _ _) as [ops|] eqn:H; [| done].
    eapply csv_loop_Ok_all in H; [| by apply list_elem_of_filter].
    congruence.
  - intros t Hd. unfold csv_table_frame. by rewrite Hd.
Qed.

(** X22. When every physical table of the selection is in scope,
    nothing is read: the result is the empty scope, whatever the client
    knows. *)
Theorem csv_reads_nothing_when_all_in_scope scope :
  (∀ t, t ∈ physical_tables sel → scope !! KOp (table_key t) ≠ None) →
  csv_pre_execute_selection updates_receiver client sel timecontext scope
  = Ok ∅.
Proof.
  intros Hall. unfold csv_pre_execute_selection.
  assert (filter (λ t, scope !! KOp (table_key t) = None) (physical_tables sel)
          = []) as ->; [| done].
  induction (physical_tables sel) as [|t ts IH]; [done |].
  rewrite filter_cons_False by (apply Hall; left).
  apply IH. intros t' Ht'. apply Hall. by right.
Qed.

(** X23. For a selection without selections, what is read for a table
    is what [csv_read_table] reads for it with no keyword arguments: the
    whole file, or the same failure. *)
Theorem csv_no_selections_reads_whole_table table :
  selections sel = [] →
  csv_table_frame client sel table = csv_read_table client table None None.
Proof.
  intros Hsel. unfold csv_table_frame, csv_read_table, csv_usecols.
  destruct (dictionary client !! table_name table); [| done].
  by rewrite bool_decide_eq_true_2.
Qed.
End CSVMore.

Section CSVReturned.
Context (client : CSVClient) (sel : Selection)
        (timecontext : option TimeContext).

Lemma csv_loop_unchanged tables :
  ∀ ops0 ops,
    csv_loop false client sel timecontext tables ops0 = Ok ops → ops = ops0.
Proof.
  induction tables as [|t0 tables IH]; simpl; intros ops0 ops H.
  { by injection H. }
  destruct (csv_table_frame client sel t0); simpl in H; [| discriminate].
  by apply IH in H.
Qed.

Lemma csv_loop_is_Ok (u1 u2 : bool) tables :
  ∀ ops1 ops2,
    is_Ok (csv_loop u1 client sel timecontext tables ops1)
    = is_Ok (csv_loop u2 client sel timecontext tables ops2).
Proof.
  induction tables as [|t0 tables IH]; simpl; intros ops1 ops2; [done |].
  destruct (csv_table_frame client sel t0); simpl; [apply IH | done].
Qed.

Lemma csv_loop_other tables ops ops' k :
  csv_loop true client sel timecontext tables ops = Ok ops' →
  (∀ t, t ∈ tables → table_key t ≠ k) →
  ops' !! KOp k = ops !! KOp k.
Proof.
  revert ops. induction tables as [|t tables IH]; simpl; intros ops H Hk.
  { by injection H as <-. }
  destruct (csv_table_frame client sel t) as [df|]; simpl in H; [| discriminate].
  rewrite (IH _ H) by (intros t' Ht'; apply Hk; by right).
  unfold merge_scope. rewrite lookup_merge, lookup_scope_item.
  rewrite decide_False; [done |].
  intros [= Heq]. by apply (Hk t); [left |].
Qed.

Lemma csv_loop_updated tables :
  ∀ ops ops' t df,
    csv_loop true client sel timecontext tables ops = Ok ops' →
    t ∈ tables →
    (∀ t', t' ∈ tables → table_key t' = table_key t → t' = t) →
    csv_table_frame client sel t = Ok df →
    ops' !! KOp (table_key t) = Some (mkEntry (VFrame df) timecontext).
Proof.
  induction tables as [|t0 tables IH]; simpl; intros ops ops' t df H Hin Huniq Hf.
  { by apply elem_of_nil in Hin. }
  destruct (csv_table_frame client sel t0) as [df0|] eqn:Hf0;
    simpl in H; [| discriminate].
  destruct (decide (t ∈ tables)) as [Ht | Ht].
  - apply (IH _ _ _ _ H Ht); [| done].
    intros t' Ht' Hk. apply Huniq; [by right | done].
  - apply elem_of_cons in Hin as [-> | Hin]; [| done].
    rewrite (csv_loop_other _ _ _ (table_key t0) H).
    + unfold merge_scope. rewrite lookup_merge, lookup_scope_item.
      rewrite decide_True by done. congruence.
    + intros t' Ht' Hk. apply Ht.
      by rewrite <- (Huniq t' ltac:(by right) Hk).
Qed.

(** X24. What [csv_pre_execute_selection] returns turns on what the call
    [ops.merge_scope(...)], whose result is dropped, does to [ops].  If
    it leaves [ops] as it is, the function returns the empty scope
    whenever it returns, whatever it read.  If it updates [ops], the
    scope returned holds, for a physical table that is not in scope and
    shares its key with no other, the frame read for it, under the time
    context of the call.  Whether the function fails does not depend on
    it. *)
Theorem csv_returned_scope_turns_on_merge_scope scope :
  (∀ ops,
     csv_pre_execute_selection false client sel timecontext scope = Ok ops →
     ops = ∅) ∧
  (∀ ops table,
     csv_pre_execute_selection true client sel timecontext scope = Ok ops →
     table ∈ physical_tables sel →
     scope !! KOp (table_key table) = None →
     (∀ t, t ∈ physical_tables sel → table_key t = table_key table →
           t = table) →
     ∃ df,
       csv_table_frame client sel table = Ok df ∧
       ops !! KOp (table_key table) = Some (mkEntry (VFrame df) timecontext)) ∧
  is_Ok (csv_pre_execute_selection false client sel timecontext scope)
  = is_Ok (csv_pre_execute_selection true client sel timecontext scope).
Proof.
  unfold csv_pre_execute_selection. split; [| split].
  - intros ops H. by apply csv_loop_unchanged in H.
  - intros ops table H Hin Hs Huniq.
    set (tables := filter _ _) in H.
    assert (table ∈ tables) as Htin by (by apply list_elem_of_filter).
    pose proof (csv_loop_Ok_all _ _ _ _ _ _ _ H table Htin) as Hok.
    destruct (csv_table_frame client sel table) as [df|] eqn:Hf;
      [| discriminate].
    exists df. split; [done |].
    apply (csv_loop_updated _ _ _ _ _ H Htin); [| done].
    intros t' [_ Ht']%list_elem_of_filter. by apply Huniq.
  - apply csv_loop_is_Ok.
Qed.
End CSVReturned.

Section CSVMoreRuns.
Import Scenario.

(** On the file [a, b, c], with and without the update of [ops]. *)
Lemma csv_select_ab_runs :
  csv_pre_execute_selection false csv_client (select ["a"; "b"]) None ∅
  = Ok ∅ ∧
  csv_pre_execute_selection true csv_client (select ["a"; "b"]) None ∅
  = Ok (scope_item (KOp 3)
          (VFrame (mkDataFrame (SingleIndex None [0; 1])
                     [("a", [1; 2]); ("b", [3; 4])])) None) ∧
  csv_pre_execute_selection true csv_client (select ["a"; "z"]) None ∅
  = Ok (scope_item (KOp 3)
          (VFrame (mkDataFrame (SingleIndex None [0; 1]) file_abc)) None).
Proof. repeat split; vm_compute; reflexivity. Qed.

Lemma csv_select_ab_run :
  csv_pre_execute_selection true csv_client (select ["a"; "b"]) (Some (1, 5)) ∅
  = Ok (scope_item (KOp 3)
          (VFrame (mkDataFrame (SingleIndex None [0; 1])
                     [("a", [1; 2]); ("b", [3; 4])])) (Some (1, 5))).
Proof. vm_compute. reflexivity. Qed.

Lemma csv_entries_are_tables_not_in_scope_witness :
  ∃ t df,
    t ∈ physical_tables (select ["a"; "b"]) ∧ KOp 3 = KOp (table_key t) ∧
    (∅ : Scope) !! KOp 3 = None ∧
    csv_table_frame csv_client (select ["a"; "b"]) t = Ok df ∧
    mkEntry (VFrame (mkDataFrame (SingleIndex None [0; 1])
                       [("a", [1; 2]); ("b", [3; 4])])) (Some (1, 5))
    = mkEntry (VFrame df) (Some (1, 5)).
Proof.
  apply (csv_entries_are_tables_not_in_scope true csv_client
           (select ["a"; "b"]) (Some (1, 5)) ∅ _ (KOp 3) _ csv_select_ab_run).
  vm_compute. reflexivity.
Defined.

Lemma csv_failure_is_a_table_failure_witness :
  csv_table_frame (mkCSVClient ∅ ∅) (select ["a"]) csv_table = Err KeyError ∧
  is_Ok (csv_pre_execute_selection false (mkCSVClient ∅ ∅) (select ["a"])
           None ∅)
  = false.
Proof.
  pose proof (csv_failure_is_a_table_failure false (mkCSVClient ∅ ∅)
                (select ["a"]) None ∅) as (_ & Hfail & Hkey).
  assert (csv_table_frame (mkCSVClient ∅ ∅) (select ["a"]) csv_table
          = Err KeyError) as Hf by (apply Hkey; reflexivity).
  split; [exact Hf |].
  apply (Hfail csv_table).
  - apply list_elem_of_singleton. reflexivity.
  - reflexivity.
  - rewrite Hf. reflexivity.
Defined.

Lemma csv_reads_nothing_when_all_in_scope_witness :
  csv_pre_execute_selection true (mkCSVClient ∅ ∅) (select ["a"]) None
    (scope_item (KOp 3) (VFrame frame_t) None) = Ok ∅.
Proof.
  apply (csv_reads_nothing_when_all_in_scope true (mkCSVClient ∅ ∅)
           (select ["a"]) None (scope_item (KOp 3) (VFrame frame_t) None)).
  intros t Ht%list_elem_of_singleton. subst t. vm_compute. discriminate.
Defined.

Lemma csv_no_selections_reads_whole_table_witness :
  csv_table_frame csv_client (mkSelection [] [csv_table]) csv_table
  = csv_read_table csv_client csv_table None None.
Proof.
  apply (csv_no_selections_reads_whole_table csv_client
           (mkSelection [] [csv_table]) csv_table).
  reflexivity.
Defined.
End CSVMoreRuns.

(** ** The two defaults of [compute_time_context] *)

Lemma map_const_replicate {A B} (y : B) (l : list A) :
  map (λ _, y) l = replicate (length l) y.
Proof. induction l as [|a l IH]; simpl; [done | by rewrite IH]. Qed.

(** X25. The PySpark default returns the parent's range once per input,
    the evaluator's default once per computable input: the two lists are
    the same exactly when every input of the node is computable, and the
    PySpark list is never the shorter one. *)
Theorem compute_time_context_defaults_agree (node : Expr)
    (timecontext : option TimeContext) :
  (pyspark_compute_time_context_default node timecontext
   = compute_time_context_default node timecontext ↔
   Forall (λ arg, is_computable_input arg = true) (inputs node)) ∧
  (length (compute_time_context_default node timecontext)
   ≤ length (pyspark_compute_time_context_default node timecontext))%nat.
Proof.
  unfold pyspark_compute_time_context_default, compute_time_context_default.
  rewrite !map_const_replicate, !length_replicate.
  split; [| apply length_filter].
  assert (Forall (λ arg, is_computable_input arg = true) (inputs node) ↔
          Forall (λ arg, Is_true (is_computable_input arg)) (inputs node)) as ->.
  { apply Forall_proper; [| done]. intros arg. symmetry. apply Is_true_true. }
  rewrite <- (length_filter_all (λ arg, Is_true (is_computable_input arg))).
  split.
  - intros H. apply (f_equal length) in H. by rewrite !length_replicate in H.
  - by intros ->.
Qed.
